(** * Media gateway and video-thumbnail pipeline

    A shallow embedding of

    - [functions/r2/[key].ts]: the [onRequestGet] handler that serves stored
      objects behind a rate limiter and a key check, and
    - [frontend/src/components/MediaCard.tsx]: the [VideoThumbnailGenerator]
      component that captures a still frame of a video once its card is
      scrolled into view,

    together with the properties of both that the specification states.

    JavaScript strings are sequences of UTF-16 code units; the built-ins the
    handler calls ([split], [join], [includes], [startsWith],
    [decodeURIComponent], [encodeURIComponent]) follow ECMA-262. *)

From Stdlib Require Import List NArith ZArith Bool String Ascii DecimalString Lia.
From Stdlib Require Import SpecFloat.
Import ListNotations.

Set Implicit Arguments.

(* ===================================================================== *)
(** * JavaScript strings and the built-ins used by the sources *)
(* ===================================================================== *)

Module JS.

Local Open Scope N_scope.

(** A JavaScript string: a list of UTF-16 code units. *)
Definition code_unit := N.
Definition jsstring := list code_unit.

(** Code units are 16 bits wide. *)
Definition is_code_unit (c : code_unit) : bool := c <? 0x10000.
Definition is_jsstring (s : jsstring) : bool := forallb is_code_unit s.

Definition is_lead_surrogate (c : code_unit) : bool := (0xD800 <=? c) && (c <=? 0xDBFF).
Definition is_trail_surrogate (c : code_unit) : bool := (0xDC00 <=? c) && (c <=? 0xDFFF).

(** [UTF16EncodeCodePoint] of ECMA-262. *)
Definition UTF16EncodeCodePoint (cp : N) : jsstring :=
  if cp <=? 0xFFFF then [cp]
  else [(cp - 0x10000) / 0x400 + 0xD800; (cp - 0x10000) mod 0x400 + 0xDC00].

(** A Unicode scalar value: a code point that is not a surrogate. *)
Definition is_scalar_value (cp : N) : bool :=
  (cp <? 0x110000) && negb ((0xD800 <=? cp) && (cp <=? 0xDFFF)).

(** [UTF16SurrogatePairToCodePoint] of ECMA-262. *)
Definition UTF16SurrogatePairToCodePoint (lead trail : code_unit) : N :=
  (lead - 0xD800) * 0x400 + (trail - 0xDC00) + 0x10000.

(** ** Source literals

    The sources are UTF-8 text; a string literal of the source denotes the
    UTF-16 string of its code points. *)

Fixpoint bytes_of (s : string) : list N :=
  match s with
  | EmptyString => []
  | String a s' => N_of_ascii a :: bytes_of s'
  end.

Fixpoint utf16_of_utf8 (bs : list N) : jsstring :=
  match bs with
  | [] => []
  | b0 :: r0 =>
    if b0 <? 0x80 then b0 :: utf16_of_utf8 r0
    else
      match r0 with
      | [] => []
      | b1 :: r1 =>
        if b0 <? 0xE0 then ((b0 - 0xC0) * 64 + (b1 - 0x80)) :: utf16_of_utf8 r1
        else
          match r1 with
          | [] => []
          | b2 :: r2 =>
            if b0 <? 0xF0
            then ((b0 - 0xE0) * 4096 + (b1 - 0x80) * 64 + (b2 - 0x80)) :: utf16_of_utf8 r2
            else
              match r2 with
              | [] => []
              | b3 :: r3 =>
                UTF16EncodeCodePoint
                  ((b0 - 0xF0) * 262144 + (b1 - 0x80) * 4096 + (b2 - 0x80) * 64 + (b3 - 0x80))
                  ++ utf16_of_utf8 r3
              end
          end
      end
  end.

Definition js (s : string) : jsstring := utf16_of_utf8 (bytes_of s).

(** ** Truthiness, equality *)

Fixpoint eqb (s t : jsstring) : bool :=
  match s, t with
  | [], [] => true
  | c :: s', d :: t' => (c =? d) && eqb s' t'
  | _, _ => false
  end.

(** A string is truthy when it is not empty. *)
Definition truthy (s : jsstring) : bool :=
  match s with [] => false | _ :: _ => true end.

(** ** [String.prototype.startsWith], [includes], [split], [Array.prototype.join] *)

Fixpoint startsWith (s search : jsstring) {struct search} : bool :=
  match search, s with
  | [], _ => true
  | _ :: _, [] => false
  | d :: search', c :: s' => (c =? d) && startsWith s' search'
  end.

Fixpoint includes (s search : jsstring) : bool :=
  startsWith s search ||
  match s with
  | [] => false
  | _ :: s' => includes s' search
  end.

(** [split] with a non-empty separator: the leftmost occurrence ends the
    current piece and the scan resumes behind it.  [skip] counts the code
    units of a matched separator still to be passed over, [cur] is the piece
    read so far. *)
Fixpoint split_from (sep : jsstring) (skip : nat) (cur s : jsstring) : list jsstring :=
  match s with
  | [] => [cur]
  | c :: s' =>
    match skip with
    | S k => split_from sep k cur s'
    | O =>
      if startsWith s sep
      then cur :: split_from sep (List.length sep - 1) [] s'
      else split_from sep 0 (cur ++ [c]) s'
    end
  end.

Definition split (s sep : jsstring) : list jsstring := split_from sep 0 [] s.

Fixpoint join (l : list jsstring) (sep : jsstring) : jsstring :=
  match l with
  | [] => []
  | [s] => s
  | s :: l' => s ++ sep ++ join l' sep
  end.

(** ** [decodeURIComponent] (ECMA-262, Decode with an empty preserve set)

    [None] stands for the [URIError] the built-in throws. *)

Definition hex_digit (c : code_unit) : option N :=
  if (48 <=? c) && (c <=? 57) then Some (c - 48)
  else if (65 <=? c) && (c <=? 70) then Some (c - 55)
  else if (97 <=? c) && (c <=? 102) then Some (c - 87)
  else None.

(** [ParseHexOctet]: the two code units at the head of [s] as one octet. *)
Definition ParseHexOctet (s : jsstring) : option N :=
  match s with
  | h :: l :: _ =>
    match hex_digit h, hex_digit l with
    | Some a, Some b => Some (16 * a + b)
    | _, _ => None
    end
  | _ => None
  end.

(** The number of leading 1 bits of an octet (5 stands for "more than 4"). *)
Definition leading_ones (B : N) : N :=
  if B <? 0x80 then 0
  else if B <? 0xC0 then 1
  else if B <? 0xE0 then 2
  else if B <? 0xF0 then 3
  else if B <? 0xF8 then 4
  else 5.

(** The [n] escapes [%XX] that continue a multi-octet sequence. *)
Fixpoint continuation_octets (n : nat) (s : jsstring) : option (list N) :=
  match n with
  | O => Some []
  | S n' =>
    match s with
    | c :: s1 =>
      if c =? 37 then
        match ParseHexOctet s1 with
        | Some b => option_map (cons b) (continuation_octets n' (skipn 2 s1))
        | None => None
        end
      else None
    | [] => None
    end
  end.

Definition is_continuation (b : N) : bool := (0x80 <=? b) && (b <? 0xC0).

(** The code point of a well-formed UTF-8 sequence of two to four octets:
    no overlong form, no surrogate, nothing above U+10FFFF. *)
Definition utf8_code_point (octets : list N) : option N :=
  match octets with
  | [b0; b1] =>
    let v := (b0 - 0xC0) * 64 + (b1 - 0x80) in
    if is_continuation b1 && (0x80 <=? v) then Some v else None
  | [b0; b1; b2] =>
    let v := (b0 - 0xE0) * 4096 + (b1 - 0x80) * 64 + (b2 - 0x80) in
    if is_continuation b1 && is_continuation b2 && (0x800 <=? v)
       && negb ((0xD800 <=? v) && (v <=? 0xDFFF))
    then Some v else None
  | [b0; b1; b2; b3] =>
    let v := (b0 - 0xF0) * 262144 + (b1 - 0x80) * 4096 + (b2 - 0x80) * 64 + (b3 - 0x80) in
    if is_continuation b1 && is_continuation b2 && is_continuation b3
       && (0x10000 <=? v) && (v <=? 0x10FFFF)
    then Some v else None
  | _ => None
  end.

(** One escape, read from the code units behind its [%]: the decoded code
    units and the number of code units behind the [%] that it spans. *)
Definition decode_escape (rest : jsstring) : option (jsstring * nat) :=
  match ParseHexOctet rest with
  | None => None
  | Some B =>
    let n := leading_ones B in
    if n =? 0 then Some ([B], 2%nat)
    else if (n =? 1) || (4 <? n) then None
    else
      match continuation_octets (N.to_nat n - 1) (skipn 2 rest) with
      | None => None
      | Some octets =>
        match utf8_code_point (B :: octets) with
        | None => None
        | Some V => Some (UTF16EncodeCodePoint V, (3 * N.to_nat n - 1)%nat)
        end
      end
  end.

Fixpoint Decode_from (skip : nat) (s : jsstring) : option jsstring :=
  match s with
  | [] => Some []
  | C :: rest =>
    match skip with
    | S k => Decode_from k rest
    | O =>
      if C =? 37 then
        match decode_escape rest with
        | None => None
        | Some (S_, used) => option_map (app S_) (Decode_from used rest)
        end
      else option_map (cons C) (Decode_from 0 rest)
    end
  end.

Definition decodeURIComponent (s : jsstring) : option jsstring := Decode_from 0 s.

(** ** [encodeURIComponent] (ECMA-262, Encode with the unescaped set
    [A-Z a-z 0-9 - _ . ! ~ * ' ( )])

    [None] stands for the [URIError] thrown at an unpaired surrogate. *)

Definition uriUnescaped (c : code_unit) : bool :=
  ((65 <=? c) && (c <=? 90)) || ((97 <=? c) && (c <=? 122)) || ((48 <=? c) && (c <=? 57))
  || (c =? 45) || (c =? 95) || (c =? 46) || (c =? 33) || (c =? 126)
  || (c =? 42) || (c =? 39) || (c =? 40) || (c =? 41).

Definition hex_char (d : N) : code_unit := if d <? 10 then 48 + d else 55 + d.

Definition escape_octet (b : N) : jsstring := [37; hex_char (b / 16); hex_char (b mod 16)].

Definition utf8_octets (cp : N) : list N :=
  if cp <? 0x80 then [cp]
  else if cp <? 0x800 then [0xC0 + cp / 64; 0x80 + cp mod 64]
  else if cp <? 0x10000 then [0xE0 + cp / 4096; 0x80 + (cp / 64) mod 64; 0x80 + cp mod 64]
  else [0xF0 + cp / 262144; 0x80 + (cp / 4096) mod 64; 0x80 + (cp / 64) mod 64; 0x80 + cp mod 64].

Definition escape_code_point (cp : N) : jsstring := flat_map escape_octet (utf8_octets cp).

Fixpoint Encode (s : jsstring) : option jsstring :=
  match s with
  | [] => Some []
  | C :: rest =>
    if uriUnescaped C then option_map (cons C) (Encode rest)
    else if is_lead_surrogate C then
      match rest with
      | D :: rest' =>
        if is_trail_surrogate D
        then option_map (app (escape_code_point (UTF16SurrogatePairToCodePoint C D))) (Encode rest')
        else None
      | [] => None
      end
    else if is_trail_surrogate C then None
    else option_map (app (escape_code_point C)) (Encode rest)
  end.

Definition encodeURIComponent (s : jsstring) : option jsstring := Encode s.

(** [Array.prototype.map] with a callback that may throw: the first
    exception ends the whole call. *)
Fixpoint map_throwing (A B : Type) (f : A -> option B) (l : list A) : option (list B) :=
  match l with
  | [] => Some []
  | a :: l' =>
    match f a with
    | None => None
    | Some b => option_map (cons b) (map_throwing f l')
    end
  end.

(** ** Numbers

    JavaScript Numbers are IEEE 754 binary64 values; their arithmetic is the
    correctly rounded one of [SpecFloat]. *)

Definition number := spec_float.

Definition prec : Z := 53.
Definition emax : Z := 1024.

Definition number_of_Z (z : Z) : number := binary_normalize prec emax z 0 false.

Definition mul (x y : number) : number := SFmul prec emax x y.
Definition div (x y : number) : number := SFdiv prec emax x y.

(** The literals [0.5] and [0.8], rounded to binary64 as the parser does. *)
Definition number_0_5 : number := S754_finite false 4503599627370496 (-53).
Definition number_0_8 : number := S754_finite false 7205759403792794 (-53).

Definition is_nan (x : number) : bool :=
  match x with S754_nan => true | _ => false end.

(** Finite and not zero. *)
Definition is_finite_nonzero (x : number) : bool :=
  match x with S754_finite _ _ _ => true | _ => false end.

(** A positive number with a mantissa of 53 bits and an exponent between
    -52 and 0: the Numbers of the integers from 1 to [2^53 - 1]. *)
Definition is_normal (x : number) : Prop :=
  exists m e, x = S754_finite false m e /\ Z.pos (digits2_pos m) = 53%Z /\ (-52 <= e <= 0)%Z.

(** [ToBoolean] of a Number: zero and NaN are falsy. *)
Definition number_truthy (x : number) : bool :=
  match x with
  | S754_zero _ | S754_nan => false
  | _ => true
  end.

(** [x || y] on Numbers. *)
Definition or_number (x y : number) : number := if number_truthy x then x else y.

Definition Math_max (a b : number) : number :=
  match a, b with
  | S754_nan, _ | _, S754_nan => S754_nan
  | S754_zero sa, S754_zero sb => S754_zero (sa && sb)
  | _, _ => if SFltb a b then b else a
  end.

Definition Math_min (a b : number) : number :=
  match a, b with
  | S754_nan, _ | _, S754_nan => S754_nan
  | S754_zero sa, S754_zero sb => S754_zero (sa || sb)
  | _, _ => if SFltb b a then b else a
  end.

(** [Math.floor]: a finite value [m * 2^e] with [e < 0] is cut at the
    binary point; every other value is integral, infinite or NaN and is its
    own floor. *)
Definition Math_floor (x : number) : number :=
  match x with
  | S754_finite s m e =>
    if (0 <=? e)%Z then x
    else binary_normalize prec emax (Z.shiftr (cond_Zopp s (Zpos m)) (- e)) 0 s
  | _ => x
  end.

(** [Math.round]: the nearest integer, a tie going towards plus infinity,
    that is the floor of [x + 1/2] taken exactly. *)
Definition Math_round (x : number) : number :=
  match x with
  | S754_finite s m e =>
    if (0 <=? e)%Z then x
    else binary_normalize prec emax
           (Z.shiftr (2 * cond_Zopp s (Zpos m) + 2 ^ (- e)) (1 - e)) 0 s
  | _ => x
  end.

End JS.

(* ===================================================================== *)
(** * The object gateway: [functions/r2/[key].ts] *)
(* ===================================================================== *)

Module Gateway.

Import JS.
Local Open Scope N_scope.

(** ** Values and platform objects *)

(** The values a binding of the deployment's environment may hold. *)
Inductive jsvalue :=
| JUndefined
| JNull
| JBoolean (b : bool)
| JNumber (x : number)
| JString (s : jsstring).

(** [ToBoolean]. *)
Definition ToBoolean (v : jsvalue) : bool :=
  match v with
  | JUndefined | JNull => false
  | JBoolean b => b
  | JNumber x => number_truthy x
  | JString s => truthy s
  end.

(** [a || b] on values, and on a string that may be [null]. *)
Definition or_value (a b : jsvalue) : jsvalue := if ToBoolean a then a else b.

Definition or_string (a : option jsstring) (b : jsstring) : jsstring :=
  match a with
  | Some s => if truthy s then s else b
  | None => b
  end.

(** [a || b] where both sides may be [null]. *)
Definition or_nullable (a b : option jsstring) : option jsstring :=
  match a with
  | Some s => if truthy s then a else b
  | None => b
  end.

Definition truthy_nullable (a : option jsstring) : bool :=
  match a with Some s => truthy s | None => false end.

(** [Headers]: names are matched without regard to ASCII case, and the
    values of one name are combined with a comma and a space. *)
Definition lower (c : code_unit) : code_unit :=
  if (65 <=? c) && (c <=? 90) then c + 32 else c.

Definition Headers := list (jsstring * jsstring).

Definition Headers_get (h : Headers) (name : jsstring) : option jsstring :=
  match filter (fun nv => JS.eqb (map lower (fst nv)) (map lower name)) h with
  | [] => None
  | vs => Some (join (map snd vs) (js ", "))
  end.

(** [URLSearchParams.get]: the first value of the name, else [null]. *)
Fixpoint searchParams_get (q : list (jsstring * jsstring)) (name : jsstring) : option jsstring :=
  match q with
  | [] => None
  | (n, v) :: q' => if JS.eqb n name then Some v else searchParams_get q' name
  end.

(** The request, as far as the handler reads it: its headers and the
    parsed query of its URL. *)
Record Request := {
  headers : Headers;
  searchParams : list (jsstring * jsstring)
}.

(** An object of the store: the body (its octets) and the optional HTTP
    metadata with its optional content type. *)
Record R2HTTPMetadata := { contentType : option jsstring }.

Record R2Object := {
  body : list N;
  httpMetadata : option R2HTTPMetadata
}.

(** [obj.httpMetadata?.contentType]. *)
Definition contentType_of (obj : R2Object) : option jsstring :=
  match httpMetadata obj with
  | Some m => contentType m
  | None => None
  end.

(** [x?.startsWith(p)]: [undefined], which is falsy, when [x] is absent. *)
Definition optional_startsWith (x : option jsstring) (p : jsstring) : bool :=
  match x with
  | Some s => startsWith s p
  | None => false
  end.

(** ** Responses *)

Inductive BodyInit :=
| Text (s : jsstring)
| Stream (octets : list N).

Record ResponseInit := {
  init_status : option N;
  init_headers : Headers
}.

Record Response := {
  status : N;
  response_headers : Headers;
  response_body : BodyInit
}.

(** [new Response(body, init)]: the status is 200 unless [init] sets it, and
    a string body brings the content type [text/plain;charset=UTF-8] unless
    [init] names one. *)
Definition new_Response (b : BodyInit) (init : ResponseInit) : Response :=
  {| status := match init_status init with Some s => s | None => 200 end;
     response_headers :=
       match b, Headers_get (init_headers init) (js "content-type") with
       | Text _, None => init_headers init ++ [(js "content-type", js "text/plain;charset=UTF-8")]
       | _, _ => init_headers init
       end;
     response_body := b |}.

(** [headers[name] = value] on the object literal of [responseInit]. *)
Fixpoint set_header (h : Headers) (name value : jsstring) : Headers :=
  match h with
  | [] => [(name, value)]
  | (n, v) :: h' => if JS.eqb n name then (n, value) :: h' else (n, v) :: set_header h' name value
  end.

(** [JSON.stringify] of an object whose properties are strings. *)
Definition hex_lower (d : N) : code_unit := if d <? 10 then 48 + d else 87 + d.

Definition unicode_escape (c : code_unit) : jsstring :=
  js "\u" ++ [hex_lower (c / 4096); hex_lower ((c / 256) mod 16);
              hex_lower ((c / 16) mod 16); hex_lower (c mod 16)].

Fixpoint QuoteJSONString_body (s : jsstring) : jsstring :=
  match s with
  | [] => []
  | c :: s' =>
    if c =? 8 then js "\b" ++ QuoteJSONString_body s'
    else if c =? 9 then js "\t" ++ QuoteJSONString_body s'
    else if c =? 10 then js "\n" ++ QuoteJSONString_body s'
    else if c =? 12 then js "\f" ++ QuoteJSONString_body s'
    else if c =? 13 then js "\r" ++ QuoteJSONString_body s'
    else if c =? 34 then [92; 34] ++ QuoteJSONString_body s'
    else if c =? 92 then [92; 92] ++ QuoteJSONString_body s'
    else if c <? 32 then unicode_escape c ++ QuoteJSONString_body s'
    else if is_lead_surrogate c then
      match s' with
      | d :: s'' =>
        if is_trail_surrogate d then c :: d :: QuoteJSONString_body s''
        else unicode_escape c ++ QuoteJSONString_body s'
      | [] => unicode_escape c
      end
    else if is_trail_surrogate c then unicode_escape c ++ QuoteJSONString_body s'
    else c :: QuoteJSONString_body s'
  end.

Definition QuoteJSONString (s : jsstring) : jsstring := [34] ++ QuoteJSONString_body s ++ [34].

Definition JSON_stringify (props : list (jsstring * jsstring)) : jsstring :=
  js "{" ++ join (map (fun kv => QuoteJSONString (fst kv) ++ js ":" ++ QuoteJSONString (snd kv)) props)
                 (js ",")
         ++ js "}".

(** ** What the handler does, in order *)

(** The steps of one invocation that the properties speak about. *)
Inductive op :=
| CheckRateLimit (key : jsstring) (limit windowMs : jsvalue)
| DecodeKey (token : jsstring)
| PathCheck (key : jsstring)
| R2Get (key : jsstring).

Inductive exn := URIError.

(** A computation: the steps taken, and either the value returned or the
    exception thrown. *)
Inductive outcome (A : Type) :=
| Returned (a : A)
| Thrown (e : exn).
Arguments Thrown {A} e.

Definition Eff (A : Type) : Type := list op * outcome A.

Definition ret {A} (a : A) : Eff A := ([], Returned a).

Definition bind {A B} (m : Eff A) (k : A -> Eff B) : Eff B :=
  match m with
  | (t, Returned a) => let '(t', r) := k a in (t ++ t', r)
  | (t, Thrown e) => (t, Thrown e)
  end.

Definition perform (o : op) : Eff unit := ([o], Returned tt).

Definition throwing {A} (r : option A) : Eff A :=
  match r with
  | Some a => ret a
  | None => ([], Thrown URIError)
  end.

Notation "x <- m ;; k" := (bind m (fun x => k))
  (at level 61, m at next level, right associativity).
Notation "m ;; k" := (bind m (fun _ => k))
  (at level 61, right associativity).

Definition trace {A} (m : Eff A) : list op := fst m.
Definition result {A} (m : Eff A) : outcome A := snd m.

(** The status of the response, when there is one. *)
Definition status_of (r : outcome Response) : option N :=
  match r with
  | Returned resp => Some (status resp)
  | Thrown _ => None
  end.

Definition is_R2Get (o : op) : bool := match o with R2Get _ => true | _ => false end.
Definition store_calls (t : list op) : nat := List.length (filter is_R2Get t).

(** ** The handler *)

Definition rate_limited_message : jsstring := js "请求过于频繁，请稍后再试".
Definition invalid_path_message : jsstring := js "无效的文件路径".
Definition not_found_message : jsstring := js "未找到".
Definition video_error : jsstring :=
  js "视频缩略图需要额外处理，当前系统不支持直接生成视频缩略图".
Definition video_suggestion : jsstring :=
  js "请考虑使用第三方视频处理服务或在前端使用默认占位图".

(** The decimal numeral of a natural number, and the seconds of a year of
    365 days. *)
Definition decimal (n : N) : jsstring := js (NilZero.string_of_uint (N.to_uint n)).

Definition seconds_of_a_year : N := 365 * 24 * 60 * 60.

Definition default_limit : jsvalue := JNumber (number_of_Z 50).
Definition default_windowMs : jsvalue := JNumber (number_of_Z 60000).

(** The delimiter of the segments of a token. *)
Definition delimiter : jsstring := js "___".

(** [key.split('___').map(decodeURIComponent)]: the segments of a token. *)
Definition decode_segments (token : jsstring) : option (list jsstring) :=
  map_throwing decodeURIComponent (split token delimiter).

(** [key.split('___').map(decodeURIComponent).join('/')]. *)
Definition decode_key (token : jsstring) : option jsstring :=
  option_map (fun segments => join segments (js "/")) (decode_segments token).

(** [key.includes('../') || key.includes('..\\') || key.startsWith('/')]. *)
Definition path_rejected (key : jsstring) : bool :=
  includes key (js "../") || includes key (js "..\") || startsWith key (js "/").

(** A path with a [..] segment, with a backslash followed by two dots, or
    with a leading slash: the paths that C2 speaks of. *)
Definition has_dotdot_segment (path : jsstring) : bool :=
  existsb (fun segment => JS.eqb segment (js "..")) (split path (js "/")).

Definition claimed_unsafe (path : jsstring) : bool :=
  has_dotdot_segment path || includes path (js "\..") || startsWith path (js "/").

(** The response for an object that was found: the handler from
    [const url = new URL(context.request.url)] to its end. *)
Definition serve (req : Request) (obj : R2Object) : Response :=
  let width := searchParams_get (searchParams req) (js "width") in
  let height := searchParams_get (searchParams req) (js "height") in
  let quality := or_string (searchParams_get (searchParams req) (js "quality")) (js "80") in
  let isVideo := optional_startsWith (contentType_of obj) (js "video/") in
  let responseInit :=
    {| init_status := None;
       init_headers :=
         [(js "content-type", or_string (contentType_of obj) (js "application/octet-stream"));
          (js "cache-control", js "public, max-age=31536000")] |} in
  if truthy_nullable (or_nullable width height)
     && optional_startsWith (contentType_of obj) (js "image/") then
    let responseInit' :=
      {| init_status := init_status responseInit;
         init_headers :=
           set_header (init_headers responseInit) (js "content-type")
                      (match contentType_of obj with Some t => t | None => [] end) |} in
    new_Response (Stream (body obj)) responseInit'
  else if truthy_nullable (or_nullable width height) && isVideo then
    new_Response
      (Text (JSON_stringify [(js "error", video_error); (js "suggestion", video_suggestion)]))
      {| init_status := Some 400;
         init_headers := [(js "content-type", js "application/json")] |}
  else
    new_Response (Stream (body obj)) responseInit.

Record RateLimitResult := { allowed : bool }.

Section Handler.

(** [checkRateLimit] of [../lib/security] and the key-value namespace it
    counts in are collaborators of the handler. *)
Variable KVNamespace : Type.
Variable checkRateLimit : KVNamespace -> jsstring -> jsvalue -> jsvalue -> RateLimitResult.

Record Env := {
  RATE_LIMIT_KV : KVNamespace;
  RATE_LIMIT_REQUESTS : jsvalue;
  RATE_LIMIT_WINDOW_MS : jsvalue;
  R2 : jsstring -> option R2Object
}.

Record Context := {
  request : Request;
  env : Env;
  params_key : jsstring
}.

(** [context.request.headers.get('CF-Connecting-IP') || 'unknown']. *)
Definition ip (context : Context) : jsstring :=
  or_string (Headers_get (headers (request context)) (js "CF-Connecting-IP")) (js "unknown").

(** The arguments of the call of [checkRateLimit], and its result. *)
Definition rate_limit_key (context : Context) : jsstring := js "r2:" ++ ip context.

Definition limit (context : Context) : jsvalue :=
  or_value (RATE_LIMIT_REQUESTS (env context)) default_limit.

Definition windowMs (context : Context) : jsvalue :=
  or_value (RATE_LIMIT_WINDOW_MS (env context)) default_windowMs.

Definition rateLimitResult (context : Context) : RateLimitResult :=
  checkRateLimit (RATE_LIMIT_KV (env context)) (rate_limit_key context)
                 (limit context) (windowMs context).

Definition onRequestGet (context : Context) : Eff Response :=
  perform (CheckRateLimit (rate_limit_key context) (limit context) (windowMs context)) ;;
  if negb (allowed (rateLimitResult context)) then
    ret (new_Response (Text rate_limited_message)
                      {| init_status := Some 429; init_headers := [] |})
  else
    perform (DecodeKey (params_key context)) ;;
    key <- throwing (decode_key (params_key context)) ;;
    perform (PathCheck key) ;;
    if path_rejected key then
      ret (new_Response (Text invalid_path_message)
                        {| init_status := Some 400; init_headers := [] |})
    else
      perform (R2Get key) ;;
      match R2 (env context) key with
      | None =>
        ret (new_Response (Text not_found_message)
                          {| init_status := Some 404; init_headers := [] |})
      | Some obj => ret (serve (request context) obj)
      end.

End Handler.

Arguments RATE_LIMIT_KV {KVNamespace} _.
Arguments RATE_LIMIT_REQUESTS {KVNamespace} _.
Arguments RATE_LIMIT_WINDOW_MS {KVNamespace} _.
Arguments R2 {KVNamespace} _ _.
Arguments request {KVNamespace} _.
Arguments env {KVNamespace} _.
Arguments params_key {KVNamespace} _.
Arguments ip {KVNamespace} _.
Arguments rate_limit_key {KVNamespace} _.
Arguments limit {KVNamespace} _.
Arguments windowMs {KVNamespace} _.

(** ** The key codec's other half *)

(** Modelled from the spec: the function that builds a token, the encoder
    of the key codec, is not part of these sources.  The comment above the
    decoding line of the handler gives the shape of a token,
    [encodeURIComponent(a)___encodeURIComponent(b)___...], and the
    specification says that each segment is percent-encoded independently
    and the results are joined by the delimiter. *)
Definition encode_segments (segments : list jsstring) : option jsstring :=
  option_map (fun encoded => join encoded delimiter)
             (map_throwing encodeURIComponent segments).

(** No code unit of a string is an underscore. *)
Definition no_underscore (s : jsstring) : bool := forallb (fun c => negb (c =? 95)) s.

(** The last code unit of a segment is an underscore. *)
Definition ends_with_underscore (s : jsstring) : bool := last s 0 =? 95.

End Gateway.

(* ===================================================================== *)
(** * The frame-capture pipeline: [VideoThumbnailGenerator] of
      [frontend/src/components/MediaCard.tsx] *)
(* ===================================================================== *)

Module Pipeline.

Import JS.

(** ** What the browser answers

    The component reads the video element and the canvas while it
    rasterises; a [frame] holds the answers of one capture. *)
Record frame := {
  videoWidth : N;                  (* [videoEl.videoWidth], an unsigned long *)
  videoHeight : N;                 (* [videoEl.videoHeight] *)
  context2d : bool;                (* [canvas.getContext('2d')] is not null *)
  drawImage_throws : bool;
  toDataURL : option jsstring      (* [None]: [canvas.toDataURL] throws *)
}.

(** The events the browser delivers to one card. *)
Inductive event :=
| Intersection (entries : list bool)
    (* the observer's callback, with [isIntersecting] of each entry *)
| LoadedMetadata (currentTime_throws : option frame)
    (* [loadedmetadata] of the video element; [Some f] when the assignment
       to [currentTime] that follows throws, so that the capture is taken
       in the same turn, from [f] *)
| Seeked (f : frame)
| VideoError.

(** What the card does to the browser. *)
Inductive action :=
| Observe                                            (* [observer.observe(el)] *)
| Disconnect                                         (* [observer.disconnect()] *)
| CreateVideo (src : jsstring)                       (* a capture attempt starts *)
| SetCurrentTime (t : number)
| DrawImage (dx dy dw dh : number)
| ToDataURL (type : jsstring) (quality : number).

(** ** The state of a card *)

(** Where the pending [generate()] waits. *)
Inductive pending :=
| AwaitMetadata
| AwaitSeek.

Record card := {
  videoThumb : option jsstring;      (* [useState<string | null>(null)] *)
  isGeneratingThumb : bool;          (* [useState(false)] *)
  observer : bool;                   (* the effect's observer exists and is connected *)
  generate : option pending
}.

Inductive view :=
| Img (src : jsstring)
| Placeholder.

(** [if (videoThumb) return <img .../>; return <div ...placeholder.../>]. *)
Definition render (c : card) : view :=
  match videoThumb c with
  | Some s => if truthy s then Img s else Placeholder
  | None => Placeholder
  end.

Definition thumb_truthy (t : option jsstring) : bool :=
  match t with Some s => truthy s | None => false end.

(** [Object.is] on the two state values the effect depends on
    ([url] is fixed for the card). *)
Definition same_thumb (a b : option jsstring) : bool :=
  match a, b with
  | None, None => true
  | Some s, Some t => JS.eqb s t
  | _, _ => false
  end.

Definition same_deps (c c' : card) : bool :=
  same_thumb (videoThumb c) (videoThumb c') && Bool.eqb (isGeneratingThumb c) (isGeneratingThumb c').

Definition targetW : number := number_of_Z 600.

(** [const seekTime = Math.min(1, Math.max(0, 0.5))]. *)
Definition seekTime : number := Math_min (number_of_Z 1) (Math_max (number_of_Z 0) number_0_5).

(** The size of the canvas for a frame. *)
Definition vw (f : frame) : number :=
  or_number (number_of_Z (Z.of_N (videoWidth f))) (number_of_Z 640).

Definition vh (f : frame) : number :=
  or_number (number_of_Z (Z.of_N (videoHeight f)))
            (Math_floor (div (mul (vw f) (number_of_Z 9)) (number_of_Z 16))).

Definition scale (f : frame) : number := div targetW (vw f).

Definition canvas_width (f : frame) : number := targetW.

Definition canvas_height (f : frame) : number :=
  Math_max (number_of_Z 1) (Math_round (mul (vh f) (scale f))).

(** The effect's cleanup: [if (observer) observer.disconnect()]. *)
Definition cleanup (c : card) : list action :=
  if observer c then [Disconnect] else [].

Section Card.

Variable url : jsstring.

(** [containerRef.current] is an element ([true]) or [null] ([false]). *)
Variable el : bool.

(** The effect's body: nothing while a thumbnail exists or one is being
    generated, nothing without a container element, else a new observer on
    the container. *)
Definition effect (c : card) : card * list action :=
  if thumb_truthy (videoThumb c) || isGeneratingThumb c
  then ({| videoThumb := videoThumb c; isGeneratingThumb := isGeneratingThumb c;
           observer := false; generate := generate c |}, [])
  else if negb el
  then ({| videoThumb := videoThumb c; isGeneratingThumb := isGeneratingThumb c;
           observer := false; generate := generate c |}, [])
  else ({| videoThumb := videoThumb c; isGeneratingThumb := isGeneratingThumb c;
           observer := true; generate := generate c |}, [Observe]).

(** A render after state updates: when a dependency changed, the previous
    effect is cleaned up and the effect runs again. *)
Definition commit (old new : card) : card * list action :=
  if same_deps old new then (new, [])
  else let '(c, acts) := effect new in (c, cleanup new ++ acts).

(** The card after its first render. *)
Definition mount : card * list action :=
  effect {| videoThumb := None; isGeneratingThumb := false; observer := false; generate := None |}.

(** The end of [generate()]: the state updates of the [try], [catch] and
    [finally] blocks, then the render they cause.  [thumb] is the update of
    [videoThumb], if any. *)
Definition finish (c : card) (thumb : option (option jsstring)) (acts : list action)
  : card * list action :=
  let new := {| videoThumb := match thumb with Some t => t | None => videoThumb c end;
                isGeneratingThumb := false;
                observer := observer c;
                generate := None |} in
  let '(c', acts') := commit c new in (c', acts ++ acts').

(** The rasterisation, from [document.createElement('canvas')] on. *)
Definition capture (c : card) (f : frame) (acts : list action) : card * list action :=
  if context2d f then
    let draw := DrawImage (number_of_Z 0) (number_of_Z 0) (canvas_width f) (canvas_height f) in
    if drawImage_throws f then finish c (Some None) (acts ++ [draw])
    else
      let encode := ToDataURL (js "image/jpeg") number_0_8 in
      match toDataURL f with
      | Some dataUrl => finish c (Some (Some dataUrl)) (acts ++ [draw; encode])
      | None => finish c (Some None) (acts ++ [draw; encode])
      end
  else finish c None acts.

(** [start()]: the state update, the synchronous part of [generate()] up to
    its first [await], then (in the observer's callback) the disconnect, and
    the render the update causes. *)
Definition start (c : card) : card * list action :=
  let new := {| videoThumb := videoThumb c; isGeneratingThumb := true;
                observer := false; generate := Some AwaitMetadata |} in
  let '(c', acts) := commit c new in
  (c', [CreateVideo url; Disconnect] ++ acts).

(** One event. An event nobody listens to changes nothing. *)
Definition step (c : card) (e : event) : card * list action :=
  match e with
  | Intersection entries =>
    if observer c && existsb (fun isIntersecting => isIntersecting) entries
    then start c
    else (c, [])
  | LoadedMetadata currentTime_throws =>
    match generate c with
    | Some AwaitMetadata =>
      match currentTime_throws with
      | Some f => capture c f [SetCurrentTime seekTime]
      | None =>
        ({| videoThumb := videoThumb c; isGeneratingThumb := isGeneratingThumb c;
            observer := observer c; generate := Some AwaitSeek |},
         [SetCurrentTime seekTime])
      end
    | _ => (c, [])
    end
  | Seeked f =>
    match generate c with
    | Some AwaitSeek => capture c f []
    | _ => (c, [])
    end
  | VideoError =>
    match generate c with
    | Some _ => finish c (Some None) []
    | None => (c, [])
    end
  end.

(** A run: the events in order, the actions collected. *)
Fixpoint run (c : card) (acts : list action) (es : list event) : card * list action :=
  match es with
  | [] => (c, acts)
  | e :: es' => let '(c', acts') := step c e in run c' (acts ++ acts') es'
  end.

(** The card from its first render on. *)
Definition mounted_run (es : list event) : card * list action :=
  let '(c, acts) := mount in run c acts es.

End Card.

(** ** The component as it is written

    [containerRef] is created by [useRef<HTMLDivElement>(null)] and read by
    the effect, but neither of the two elements the component renders, the
    [<img>] of a thumbnail and the [<div>] of the placeholder, is given
    [ref={containerRef}]: [containerRef.current] is [null] whenever the
    effect runs, and the effect returns at [if (!el) return]. *)
Definition containerRef_current : bool := false.

Definition lifetime (url : jsstring) (es : list event) : card * list action :=
  mounted_run url containerRef_current es.

(** ** The states of a card *)

(** The state of the first render: no thumbnail, nothing being generated,
    no observer. *)
Definition idle : card :=
  {| videoThumb := None; isGeneratingThumb := false; observer := false; generate := None |}.

(** Waiting for the card to scroll into view: the state a card with a
    container element would be mounted in. *)
Definition observing : card :=
  {| videoThumb := None; isGeneratingThumb := false; observer := true; generate := None |}.

(** A capture attempt is pending. *)
Definition generating (p : pending) : card :=
  {| videoThumb := None; isGeneratingThumb := true; observer := false; generate := Some p |}.

(** The frame an event makes a pending attempt rasterise, if any:
    [seeked] while the seek is awaited, or [loadedmetadata] when the
    assignment to [currentTime] throws. *)
Definition captured (p : pending) (e : event) : option frame :=
  match p, e with
  | AwaitSeek, Seeked f => Some f
  | AwaitMetadata, LoadedMetadata (Some f) => Some f
  | _, _ => None
  end.

(** The rasterisation of a frame throws. *)
Definition capture_throws (f : frame) : bool :=
  context2d f
  && (drawImage_throws f || match toDataURL f with Some _ => false | None => true end).

(** An event makes a pending attempt fail: an [error] event of the video
    while its metadata or the seek is awaited, or an exception while the
    frame is rasterised and encoded. *)
Definition attempt_fails (p : pending) (e : event) : bool :=
  match e with
  | VideoError => true
  | _ => match captured p e with
         | Some f => capture_throws f
         | None => false
         end
  end.

Definition is_CreateVideo (a : action) : bool :=
  match a with CreateVideo _ => true | _ => false end.

(** The number of capture attempts among some actions. *)
Definition attempts (acts : list action) : nat := List.length (filter is_CreateVideo acts).

End Pipeline.

(* ===================================================================== *)
(** * Concrete requests, buckets and limiters *)
(* ===================================================================== *)

Module Examples.

Import JS Gateway.
Local Open Scope N_scope.

(** Limiters that allow, and that deny, every request. *)
Definition allow_all (_ : unit) (_ : jsstring) (_ _ : jsvalue) : RateLimitResult :=
  {| allowed := true |}.
Definition deny_all (_ : unit) (_ : jsstring) (_ _ : jsvalue) : RateLimitResult :=
  {| allowed := false |}.

Fixpoint bucket (objects : list (jsstring * R2Object)) (key : jsstring) : option R2Object :=
  match objects with
  | [] => None
  | (k, o) :: objects' => if JS.eqb k key then Some o else bucket objects' key
  end.

Definition object_of_type (t : string) : R2Object :=
  {| body := [0xFF; 0xD8; 0xFF]; httpMetadata := Some {| contentType := Some (js t) |} |}.

Definition untyped_object : R2Object := {| body := [1; 2; 3]; httpMetadata := None |}.

Definition objects : list (jsstring * R2Object) :=
  [(js "album/clip.mp4", object_of_type "video/mp4");
   (js "album/cat.png", object_of_type "image/png");
   (js "album/raw.bin", untyped_object)].

(** A request for [token] with the given query, no header, no configured
    limits. *)
Definition get (token : string) (query : list (string * string)) : Context unit :=
  {| request := {| headers := [];
                   searchParams := map (fun nv => (js (fst nv), js (snd nv))) query |};
     env := {| RATE_LIMIT_KV := tt;
               RATE_LIMIT_REQUESTS := JUndefined;
               RATE_LIMIT_WINDOW_MS := JUndefined;
               R2 := bucket objects |};
     params_key := js token |}.

(** A deployment that configures both limits as the number zero. *)
Definition zero_limits : Context unit :=
  {| request := {| headers := [(js "cf-connecting-ip", js "203.0.113.7")]; searchParams := [] |};
     env := {| RATE_LIMIT_KV := tt;
               RATE_LIMIT_REQUESTS := JNumber (number_of_Z 0);
               RATE_LIMIT_WINDOW_MS := JNumber (number_of_Z 0);
               R2 := bucket objects |};
     params_key := js "album___cat.png" |}.

(** The segments of a key. *)
Definition album_key : list jsstring := [js "相册 2024"; js "_été"; js "a__b 😀.jpg_"].

(** A video card and the frame its video yields. *)
Definition clip_url : jsstring := js "/r2/album___clip.mp4".

Definition frame_of (width height : N) : Pipeline.frame :=
  {| Pipeline.videoWidth := width; Pipeline.videoHeight := height;
     Pipeline.context2d := true; Pipeline.drawImage_throws := false;
     Pipeline.toDataURL := Some (js "data:image/jpeg;base64,/9j/4AAQSkZJRg==") |}.

Definition full_hd : Pipeline.frame := frame_of 1920 1080.

End Examples.

(* ===================================================================== *)
(** * The image of a card: [AdaptiveImage] of
      [frontend/src/components/MediaCard.tsx] *)
(* ===================================================================== *)

Module AdaptiveImage.

Import JS.

(** The events of the [Image] objects that the effect creates: [onload],
    with the natural size of the image, and [onerror]. *)
Inductive event :=
| Load (naturalWidth naturalHeight : N)
| Error.

(** The callbacks of the parent. *)
Inductive callback :=
| onLoad
| onError.

(** [const [aspectRatio, setAspectRatio] = useState<number | null>(null)]. *)
Definition state := option number.

Definition initial : state := None.

(** [img.onload = () => { setAspectRatio(img.naturalHeight / img.naturalWidth);
    onLoad(); }] and [img.onerror = onError]. *)
Definition handle (aspectRatio : state) (e : event) : state * list callback :=
  match e with
  | Load naturalWidth naturalHeight =>
    (Some (div (number_of_Z (Z.of_N naturalHeight)) (number_of_Z (Z.of_N naturalWidth))),
     [onLoad])
  | Error => (aspectRatio, [onError])
  end.

(** What is rendered: the image in a box whose bottom padding is
    [aspectRatio * 100] percent (and whose height is capped at 500 px), or
    the pulsing placeholder in a box of 75 percent. *)
Inductive view :=
| Picture (paddingBottom : number)
| Pulse.

(** [if (aspectRatio !== null) return ...; return ...]. *)
Definition render (aspectRatio : state) : view :=
  match aspectRatio with
  | Some r => Picture (mul r (number_of_Z 100))
  | None => Pulse
  end.

(** The events in order, the callbacks collected. *)
Fixpoint run (aspectRatio : state) (es : list event) : state * list callback :=
  match es with
  | [] => (aspectRatio, [])
  | e :: es' =>
    let '(s, calls) := handle aspectRatio e in
    let '(s', calls') := run s es' in (s', calls ++ calls')
  end.

Definition is_Load (e : event) : bool :=
  match e with Load _ _ => true | Error => false end.

(** The ratio that the last [onload] among some events sets, if any. *)
Fixpoint last_ratio (es : list event) : option number :=
  match es with
  | [] => None
  | e :: es' =>
    match last_ratio es', e with
    | Some r, _ => Some r
    | None, Load naturalWidth naturalHeight =>
      Some (div (number_of_Z (Z.of_N naturalHeight)) (number_of_Z (Z.of_N naturalWidth)))
    | None, Error => None
    end
  end.

End AdaptiveImage.

(* ===================================================================== *)
(** * The card: [MediaCard] of [frontend/src/components/MediaCard.tsx]

    The file declares [MediaCard] twice, once before and once after
    [export default MediaCard]; the two declarations differ in what they
    render for a video and agree on everything modelled here. *)
(* ===================================================================== *)

Module Card.

Import JS.

(** [getThumbnailUrl] and [getPreviewUrl]. *)
Definition getThumbnailUrl (url : jsstring) : jsstring :=
  url ++ js "?width=600&quality=80&fit=scale-down".

Definition getPreviewUrl (url : jsstring) : jsstring :=
  url ++ js "?width=1200&quality=85&fit=scale-down".

(** [Array.prototype.pop]: the last element, [undefined] for an empty
    array. *)
Fixpoint pop (A : Type) (l : list A) : option A :=
  match l with
  | [] => None
  | [a] => Some a
  | _ :: l' => pop l'
  end.

(** [media.key.split('/').pop()], the name shown on the card. *)
Definition display_name (key : jsstring) : option jsstring := pop (split key (js "/")).

(** The properties of a card that decide what a click does. *)
Record props := {
  isSelectMode : bool;
  isGuest : bool
}.

Inductive callback :=
| onPreview
| onDownload
| onSelect.

(** Where a click lands: on the selection box, on the download button, or
    anywhere else in the card. *)
Inductive target :=
| SelectionBox
| DownloadButton
| Elsewhere.

(** [{isSelectMode && !isGuest && (<div ...>)}]: the selection box is
    rendered in selection mode, except for a guest. *)
Definition rendered (p : props) (t : target) : bool :=
  match t with
  | SelectionBox => isSelectMode p && negb (isGuest p)
  | DownloadButton | Elsewhere => true
  end.

(** A click handler: the callbacks it calls, and whether it calls
    [e.stopPropagation()]. *)
Record handler := {
  calls : list callback;
  stopPropagation : bool
}.

(** [onClick={(e) => { e.stopPropagation(); onSelect(); }}]. *)
Definition selection_box_onClick : handler :=
  {| calls := [onSelect]; stopPropagation := true |}.

(** [onClick={e => { e.stopPropagation(); onDownload(); }}]. *)
Definition download_onClick : handler :=
  {| calls := [onDownload]; stopPropagation := true |}.

(** [onClick={isSelectMode ? onSelect : onPreview}] on the root element. *)
Definition root_onClick (p : props) : handler :=
  {| calls := [if isSelectMode p then onSelect else onPreview]; stopPropagation := false |}.

(** The handlers from the element clicked up to the root of the card. *)
Definition propagation_path (p : props) (t : target) : list handler :=
  match t with
  | SelectionBox => [selection_box_onClick; root_onClick p]
  | DownloadButton => [download_onClick; root_onClick p]
  | Elsewhere => [root_onClick p]
  end.

(** The click bubbles up the path until a handler stops it. *)
Fixpoint dispatch (path : list handler) : list callback :=
  match path with
  | [] => []
  | h :: path' => calls h ++ (if stopPropagation h then [] else dispatch path')
  end.

(** A click on an element, when that element is rendered. *)
Definition click (p : props) (t : target) : option (list callback) :=
  if rendered p t then Some (dispatch (propagation_path p t)) else None.

(** [const [loaded, setLoaded] = useState(false)] with
    [onLoad={() => setLoaded(true)}] and [onError={() => setLoaded(true)}]
    on the image of the card. *)
Definition image_callback (loaded : bool) (c : AdaptiveImage.callback) : bool :=
  match c with
  | AdaptiveImage.onLoad => true
  | AdaptiveImage.onError => true
  end.

(** The card of an image: the state of its [AdaptiveImage] and its own
    [loaded] flag, after some events of the image. *)
Definition image_card (es : list AdaptiveImage.event) : AdaptiveImage.state * bool :=
  let '(aspectRatio, called) := AdaptiveImage.run AdaptiveImage.initial es in
  (aspectRatio, fold_left image_callback called false).

End Card.

(* ===================================================================== *)
(** * More about the states of the pipeline *)
(* ===================================================================== *)

Module PipelineStates.

Import JS Pipeline.

(** While an attempt is pending the card is marked as generating, has no
    observer and has no thumbnail to show; otherwise it is not marked, and
    it has no observer unless it has a container element and no thumbnail
    to show. *)
Definition consistent (el : bool) (c : card) : Prop :=
  match generate c with
  | Some _ =>
    isGeneratingThumb c = true /\ observer c = false /\ thumb_truthy (videoThumb c) = false
  | None =>
    isGeneratingThumb c = false /\ observer c = el && negb (thumb_truthy (videoThumb c))
  end.

Definition is_canvas_action (a : action) : bool :=
  match a with
  | DrawImage _ _ _ _ | ToDataURL _ _ => true
  | _ => false
  end.

End PipelineStates.

(* ===================================================================== *)
(** * More concrete requests and cards *)
(* ===================================================================== *)

Module MoreExamples.

Import JS Gateway Examples.
Local Open Scope N_scope.

(** A request with a client address, in mixed case as a client may send
    it. *)
Definition from_address : Context unit :=
  {| request := {| headers := [(js "CF-Connecting-IP", js "198.51.100.4")];
                   searchParams := [(js "quality", js "60")] |};
     env := {| RATE_LIMIT_KV := tt;
               RATE_LIMIT_REQUESTS := JUndefined;
               RATE_LIMIT_WINDOW_MS := JUndefined;
               R2 := bucket objects |};
     params_key := js "album___cat.png" |}.

(** A frame of a canvas that yields no 2d context. *)
Definition no_context : Pipeline.frame :=
  {| Pipeline.videoWidth := 1280; Pipeline.videoHeight := 720;
     Pipeline.context2d := false; Pipeline.drawImage_throws := false;
     Pipeline.toDataURL := None |}.

End MoreExamples.

(* ===================================================================== *)
(** * Properties of the gateway *)
(* ===================================================================== *)

Unset Implicit Arguments.

Module GatewaySpec.

Import JS Gateway Examples.
Local Open Scope string_scope.
Local Open Scope list_scope.
Local Open Scope N_scope.

(** ** The handler, stage by stage *)

Section Stages.

Variable KV : Type.
Variable checkRateLimit : KV -> jsstring -> jsvalue -> jsvalue -> RateLimitResult.
Variable context : Context KV.

Let check : op :=
  CheckRateLimit (rate_limit_key context) (limit context) (windowMs context).

Lemma stage_rate_limited :
  allowed (rateLimitResult checkRateLimit context) = false ->
  onRequestGet checkRateLimit context
  = ([check],
     Returned (new_Response (Text rate_limited_message)
                            {| init_status := Some 429; init_headers := [] |})).
Proof.
  intros H. unfold onRequestGet. rewrite H. reflexivity.
Qed.

Lemma stage_undecodable :
  allowed (rateLimitResult checkRateLimit context) = true ->
  decode_key (params_key context) = None ->
  onRequestGet checkRateLimit context
  = ([check; DecodeKey (params_key context)], Thrown URIError).
Proof.
  intros H D. unfold onRequestGet. rewrite H, D. reflexivity.
Qed.

Lemma stage_path_rejected key :
  allowed (rateLimitResult checkRateLimit context) = true ->
  decode_key (params_key context) = Some key ->
  path_rejected key = true ->
  onRequestGet checkRateLimit context
  = ([check; DecodeKey (params_key context); PathCheck key],
     Returned (new_Response (Text invalid_path_message)
                            {| init_status := Some 400; init_headers := [] |})).
Proof.
  intros H D P. unfold onRequestGet. rewrite H, D. cbn. rewrite P. reflexivity.
Qed.

Lemma stage_found key obj :
  allowed (rateLimitResult checkRateLimit context) = true ->
  decode_key (params_key context) = Some key ->
  path_rejected key = false ->
  R2 (env context) key = Some obj ->
  onRequestGet checkRateLimit context
  = ([check; DecodeKey (params_key context); PathCheck key; R2Get key],
     Returned (serve (request context) obj)).
Proof.
  intros H D P G. unfold onRequestGet. rewrite H, D. cbn. rewrite P. cbn. rewrite G.
  reflexivity.
Qed.

End Stages.

(** A segment that does not decode makes the whole key undecodable. *)
Lemma map_throwing_None (A B : Type) (f : A -> option B) (l : list A) (a : A) :
  In a l -> f a = None -> map_throwing f l = None.
Proof.
  induction l as [|x l IH]; intros Hin Hf; [contradiction|].
  cbn. destruct Hin as [->|Hin].
  - now rewrite Hf.
  - destruct (f x); [|reflexivity]. now rewrite (IH Hin Hf).
Qed.

Lemma decode_key_None token piece :
  In piece (split token delimiter) ->
  decodeURIComponent piece = None ->
  decode_key token = None.
Proof.
  intros Hin Hd. unfold decode_key, decode_segments.
  now rewrite (map_throwing_None _ _ decodeURIComponent _ piece Hin Hd).
Qed.

(** ** Rate limiting *)

(** C8: a request that the rate limiter rejects is answered 429 with the
    plain-text throttling message, and the check of the limiter is the only
    step taken: the key is not decoded, no path check runs, the object store
    is not called. *)
Theorem C8_rate_limited_429_and_nothing_else :
  forall (KV : Type) (checkRateLimit : KV -> jsstring -> jsvalue -> jsvalue -> RateLimitResult)
         (context : Context KV),
    allowed (rateLimitResult checkRateLimit context) = false ->
    trace (onRequestGet checkRateLimit context)
    = [CheckRateLimit (rate_limit_key context) (limit context) (windowMs context)]
    /\ store_calls (trace (onRequestGet checkRateLimit context)) = 0%nat
    /\ result (onRequestGet checkRateLimit context)
       = Returned {| status := 429;
                     response_headers := [(js "content-type", js "text/plain;charset=UTF-8")];
                     response_body := Text rate_limited_message |}
    /\ truthy rate_limited_message = true.
Proof.
  intros KV crl context H. rewrite (stage_rate_limited KV crl context H).
  repeat split.
Qed.

Lemma C8_witness :
  allowed (rateLimitResult deny_all (get "album___cat.png" [])) = false
  /\ trace (onRequestGet deny_all (get "album___cat.png" []))
     = [CheckRateLimit (js "r2:unknown") default_limit default_windowMs]
  /\ status_of (result (onRequestGet deny_all (get "album___cat.png" []))) = Some 429.
Proof.
  split; [reflexivity|].
  destruct (C8_rate_limited_429_and_nothing_else unit deny_all (get "album___cat.png" []) eq_refl)
    as (Ht & _ & Hr & _).
  split; [exact Ht | rewrite Hr; reflexivity].
Defined.

(** C10: a configured limit or window that is falsy (the number zero in
    particular) is replaced by the default, 50 requests and 60000 ms, in the
    call of the limiter; what the limiter receives is therefore never falsy,
    so never a limit of zero. *)
Theorem C10_falsy_limits_fall_back_to_defaults :
  forall (KV : Type) (checkRateLimit : KV -> jsstring -> jsvalue -> jsvalue -> RateLimitResult)
         (context : Context KV),
    (exists rest,
        trace (onRequestGet checkRateLimit context)
        = CheckRateLimit (rate_limit_key context) (limit context) (windowMs context) :: rest)
    /\ (ToBoolean (RATE_LIMIT_REQUESTS (env context)) = false ->
        limit context = JNumber (number_of_Z 50))
    /\ (ToBoolean (RATE_LIMIT_WINDOW_MS (env context)) = false ->
        windowMs context = JNumber (number_of_Z 60000))
    /\ ToBoolean (limit context) = true
    /\ ToBoolean (windowMs context) = true.
Proof.
  intros KV crl context. split; [|split; [|split; [|split]]].
  - unfold onRequestGet.
    destruct (negb (allowed (rateLimitResult crl context))).
    + eexists. reflexivity.
    + cbn. destruct (decode_key (params_key context)) as [key|]; cbn.
      * destruct (path_rejected key); cbn; [eexists; reflexivity|].
        destruct (R2 (env context) key); eexists; reflexivity.
      * eexists. reflexivity.
  - intros H. unfold limit, or_value. now rewrite H.
  - intros H. unfold windowMs, or_value. now rewrite H.
  - unfold limit, or_value.
    destruct (ToBoolean (RATE_LIMIT_REQUESTS (env context))) eqn:E; [exact E | reflexivity].
  - unfold windowMs, or_value.
    destruct (ToBoolean (RATE_LIMIT_WINDOW_MS (env context))) eqn:E; [exact E | reflexivity].
Qed.

Lemma C10_witness :
  RATE_LIMIT_REQUESTS (env zero_limits) = JNumber (S754_zero false)
  /\ RATE_LIMIT_WINDOW_MS (env zero_limits) = JNumber (S754_zero false)
  /\ limit zero_limits = JNumber (number_of_Z 50)
  /\ windowMs zero_limits = JNumber (number_of_Z 60000).
Proof.
  destruct (C10_falsy_limits_fall_back_to_defaults unit allow_all zero_limits)
    as (_ & Hl & Hw & _).
  split; [reflexivity|]. split; [reflexivity|].
  split; [apply Hl; reflexivity | apply Hw; reflexivity].
Defined.

(** ** The key check *)

(** C2, as stated, fails: the token [a%5C..b] decodes to a path that
    contains a backslash and two dots, the token [..] to a path that is one
    [..] segment; neither is rejected, and the store is asked for both. *)
Lemma C2_counterexample :
  (decode_key (js "a%5C..b") = Some (js "a\..b")
   /\ claimed_unsafe (js "a\..b") = true
   /\ trace (onRequestGet allow_all (get "a%5C..b" []))
      = [CheckRateLimit (js "r2:unknown") default_limit default_windowMs;
         DecodeKey (js "a%5C..b"); PathCheck (js "a\..b"); R2Get (js "a\..b")]
   /\ status_of (result (onRequestGet allow_all (get "a%5C..b" []))) = Some 404)
  /\ (decode_key (js "..") = Some (js "..")
      /\ claimed_unsafe (js "..") = true
      /\ store_calls (trace (onRequestGet allow_all (get ".." []))) = 1%nat
      /\ status_of (result (onRequestGet allow_all (get ".." []))) = Some 404).
Proof. vm_compute. repeat split. Qed.

(** C2, amended: a request that passes the rate limiter and whose decoded
    path, the segments joined by [/], contains [../], contains [..\] (two
    dots, then a backslash) or starts with [/] is answered 400, after the
    limiter's check, the decoding and the path check and without any call
    of the object store. *)
Theorem C2_rejected_key_400_before_any_lookup :
  forall (KV : Type) (checkRateLimit : KV -> jsstring -> jsvalue -> jsvalue -> RateLimitResult)
         (context : Context KV) (key : jsstring),
    allowed (rateLimitResult checkRateLimit context) = true ->
    decode_key (params_key context) = Some key ->
    includes key (js "../") || includes key (js "..\") || startsWith key (js "/") = true ->
    trace (onRequestGet checkRateLimit context)
    = [CheckRateLimit (rate_limit_key context) (limit context) (windowMs context);
       DecodeKey (params_key context); PathCheck key]
    /\ store_calls (trace (onRequestGet checkRateLimit context)) = 0%nat
    /\ result (onRequestGet checkRateLimit context)
       = Returned {| status := 400;
                     response_headers := [(js "content-type", js "text/plain;charset=UTF-8")];
                     response_body := Text invalid_path_message |}.
Proof.
  intros KV crl context key H D P.
  rewrite (stage_path_rejected KV crl context key H D P). repeat split.
Qed.

Lemma C2_witness :
  decode_key (js "album___..%2F..%2Fsecret") = Some (js "album/../../secret")
  /\ store_calls (trace (onRequestGet allow_all (get "album___..%2F..%2Fsecret" []))) = 0%nat
  /\ status_of (result (onRequestGet allow_all (get "album___..%2F..%2Fsecret" []))) = Some 400.
Proof.
  split; [reflexivity|].
  destruct (C2_rejected_key_400_before_any_lookup unit allow_all
              (get "album___..%2F..%2Fsecret" []) (js "album/../../secret")
              eq_refl eq_refl eq_refl) as (_ & Hs & Hr).
  split; [exact Hs | rewrite Hr; reflexivity].
Defined.

(** C4, as stated, fails: [%E0%A4%A] is not a percent-encoding of
    anything, [decodeURIComponent] throws on it, nothing in the handler
    catches the exception, and no response, 400 or other, is produced. *)
Lemma C4_counterexample :
  decodeURIComponent (js "%E0%A4%A") = None
  /\ onRequestGet allow_all (get "album___%E0%A4%A" [])
     = ([CheckRateLimit (js "r2:unknown") default_limit default_windowMs;
         DecodeKey (js "album___%E0%A4%A")],
        Thrown URIError)
  /\ status_of (result (onRequestGet allow_all (get "album___%E0%A4%A" []))) = None.
Proof. vm_compute. repeat split. Qed.

(** C4, amended: when a request passes the rate limiter and one of the
    pieces of its token between the delimiters cannot be decoded, the
    handler ends with the uncaught [URIError] of [decodeURIComponent]: it
    produces no response of its own, and it has not called the object
    store. *)
Theorem C4_malformed_token_throws :
  forall (KV : Type) (checkRateLimit : KV -> jsstring -> jsvalue -> jsvalue -> RateLimitResult)
         (context : Context KV) (piece : jsstring),
    allowed (rateLimitResult checkRateLimit context) = true ->
    In piece (split (params_key context) delimiter) ->
    decodeURIComponent piece = None ->
    result (onRequestGet checkRateLimit context) = Thrown URIError
    /\ status_of (result (onRequestGet checkRateLimit context)) = None
    /\ trace (onRequestGet checkRateLimit context)
       = [CheckRateLimit (rate_limit_key context) (limit context) (windowMs context);
          DecodeKey (params_key context)]
    /\ store_calls (trace (onRequestGet checkRateLimit context)) = 0%nat.
Proof.
  intros KV crl context piece H Hin Hd.
  rewrite (stage_undecodable KV crl context H (decode_key_None _ piece Hin Hd)). repeat split.
Qed.

Lemma C4_witness :
  In (js "100%") (split (js "album___100%") delimiter)
  /\ decodeURIComponent (js "100%") = None
  /\ result (onRequestGet allow_all (get "album___100%" [])) = Thrown URIError.
Proof.
  assert (Hin : In (js "100%") (split (js "album___100%") delimiter)) by (right; left; reflexivity).
  split; [exact Hin|]. split; [reflexivity|].
  exact (proj1 (C4_malformed_token_throws unit allow_all (get "album___100%" [])
                  (js "100%") eq_refl Hin eq_refl)).
Defined.

(** ** Content negotiation *)

Ltac literals :=
  repeat match goal with
         | |- context [js ?l] =>
           let v := eval vm_compute in (js l) in change (js l) with v
         | H : context [js ?l] |- _ =>
           let v := eval vm_compute in (js l) in change (js l) with v in H
         end.

Lemma video_is_not_image t :
  startsWith t (js "video/") = true -> startsWith t (js "image/") = false.
Proof.
  literals. destruct t as [|c t]; [discriminate|]. cbn.
  destruct (N.eqb_spec c 118) as [->|]; [reflexivity | discriminate].
Qed.

Lemma image_is_not_video t :
  startsWith t (js "image/") = true -> startsWith t (js "video/") = false.
Proof.
  literals. destruct t as [|c t]; [discriminate|]. cbn.
  destruct (N.eqb_spec c 105) as [->|]; [reflexivity | discriminate].
Qed.

Lemma startsWith_truthy t p : truthy p = true -> startsWith t p = true -> truthy t = true.
Proof. destruct p, t; cbn; congruence. Qed.

Lemma truthy_or_nullable a b :
  truthy_nullable (or_nullable a b) = truthy_nullable a || truthy_nullable b.
Proof.
  destruct a as [s|]; cbn; [|reflexivity].
  destruct (truthy s) eqn:E; cbn; [exact E | reflexivity].
Qed.

Example JSON_stringify_escapes :
  JSON_stringify [(js "a", js "b\c"); (js "d", [9; 0xD83D; 0xDE00; 0xD83D])]
  = js "{" ++ [34] ++ js "a" ++ [34] ++ js ":" ++ [34] ++ js "b\\c" ++ [34] ++ js ","
    ++ [34] ++ js "d" ++ [34] ++ js ":" ++ [34] ++ js "\t😀\ud83d" ++ [34] ++ js "}".
Proof. reflexivity. Qed.

(** What [serve] answers on each of its three branches. *)
Lemma serve_image req obj t :
  contentType_of obj = Some t ->
  startsWith t (js "image/") = true ->
  serve req obj
  = {| status := 200;
       response_headers := [(js "content-type", t);
                            (js "cache-control", js "public, max-age=31536000")];
       response_body := Stream (body obj) |}.
Proof.
  intros Hct Himg. unfold serve. rewrite Hct. cbn [optional_startsWith].
  rewrite Himg, (image_is_not_video _ Himg), !andb_true_r, andb_false_r.
  assert (Ht : or_string (Some t) (js "application/octet-stream") = t).
  { unfold or_string. now rewrite (startsWith_truthy t (js "image/") eq_refl Himg). }
  rewrite Ht.
  destruct (truthy_nullable _); reflexivity.
Qed.

Lemma serve_video req obj t :
  contentType_of obj = Some t ->
  startsWith t (js "video/") = true ->
  truthy_nullable (searchParams_get (searchParams req) (js "width"))
  || truthy_nullable (searchParams_get (searchParams req) (js "height")) = true ->
  serve req obj
  = {| status := 400;
       response_headers := [(js "content-type", js "application/json")];
       response_body :=
         Text (JSON_stringify [(js "error", video_error); (js "suggestion", video_suggestion)]) |}.
Proof.
  intros Hct Hvid Hq. unfold serve. rewrite Hct. cbn [optional_startsWith].
  rewrite truthy_or_nullable, Hq, Hvid, (video_is_not_image _ Hvid). reflexivity.
Qed.

Lemma serve_plain req obj :
  truthy_nullable (or_nullable (searchParams_get (searchParams req) (js "width"))
                               (searchParams_get (searchParams req) (js "height")))
  && (optional_startsWith (contentType_of obj) (js "image/")
      || optional_startsWith (contentType_of obj) (js "video/")) = false ->
  serve req obj
  = {| status := 200;
       response_headers :=
         [(js "content-type", or_string (contentType_of obj) (js "application/octet-stream"));
          (js "cache-control", js "public, max-age=31536000")];
       response_body := Stream (body obj) |}.
Proof.
  intros H. unfold serve.
  destruct (truthy_nullable _); cbn in H |- *; [|reflexivity].
  apply orb_false_elim in H. destruct H as [-> ->]. reflexivity.
Qed.









End GatewaySpec.

(* ===================================================================== *)
(** * Properties of the key codec *)
(* ===================================================================== *)

Module CodecSpec.

Import JS Gateway Examples.
Local Open Scope string_scope.
Local Open Scope list_scope.
Local Open Scope N_scope.

Local Arguments N.add : simpl never.
Local Arguments N.sub : simpl never.
Local Arguments N.mul : simpl never.
Local Arguments N.div : simpl never.
Local Arguments N.modulo : simpl never.
Local Arguments N.ltb : simpl never.
Local Arguments N.leb : simpl never.
Local Arguments N.eqb : simpl never.

(** Linear arithmetic with the quotients and remainders of the UTF-8 and
    UTF-16 forms. *)
Ltac Zify.zify_post_hook ::= Z.to_euclidean_division_equations.

(** The code units of the delimiter. *)
Local Abbreviation sep := [95; 95; 95].

Lemma delimiter_units : delimiter = sep.
Proof. reflexivity. Qed.

(** ** The built-ins on concrete strings *)

Example decodeURIComponent_utf8 :
  decodeURIComponent (js "%E4%BD%A0%f0%9f%98%80x") = Some (js "你😀x").
Proof. reflexivity. Qed.

Example decodeURIComponent_truncated : decodeURIComponent (js "100%") = None.
Proof. reflexivity. Qed.

Example decodeURIComponent_overlong : decodeURIComponent (js "%C0%80") = None.
Proof. reflexivity. Qed.

Example decodeURIComponent_surrogate : decodeURIComponent (js "%ED%A0%80") = None.
Proof. reflexivity. Qed.

Example encodeURIComponent_text :
  encodeURIComponent (js "你 a_b/(c)") = Some (js "%E4%BD%A0%20a_b%2F(c)").
Proof. reflexivity. Qed.

Example encodeURIComponent_unpaired : encodeURIComponent [0xD83D; 97] = None.
Proof. reflexivity. Qed.

Example split_leftmost : split (js "a____b") (js "___") = [js "a"; js "_b"].
Proof. reflexivity. Qed.

Example split_empty_string : split [] (js "___") = [[]].
Proof. reflexivity. Qed.

Example split_adjacent : split (js "______") (js "___") = [[]; []; []].
Proof. reflexivity. Qed.

Ltac bools :=
  repeat match goal with
         | H : _ && _ = true |- _ => apply andb_prop in H; destruct H
         | H : _ || _ = false |- _ => apply orb_false_elim in H; destruct H
         | H : negb _ = true |- _ => apply negb_true_iff in H
         | H : negb _ = false |- _ => apply negb_false_iff in H
         | H : (_ <? _) = true |- _ => apply N.ltb_lt in H
         | H : (_ <? _) = false |- _ => apply N.ltb_ge in H
         | H : (_ <=? _) = true |- _ => apply N.leb_le in H
         | H : (_ <=? _) = false |- _ => apply N.leb_gt in H
         | H : (_ =? _) = true |- _ => apply N.eqb_eq in H
         | H : (_ =? _) = false |- _ => apply N.eqb_neq in H
         end.

(** Deciding a comparison whose outcome the context fixes. *)
Ltac decide_tests :=
  repeat match goal with
         | |- context [?a <? ?b] =>
           first [ replace (a <? b) with true by (symmetry; apply N.ltb_lt; lia)
                 | replace (a <? b) with false by (symmetry; apply N.ltb_ge; lia) ]
         | |- context [?a <=? ?b] =>
           first [ replace (a <=? b) with true by (symmetry; apply N.leb_le; lia)
                 | replace (a <=? b) with false by (symmetry; apply N.leb_gt; lia) ]
         | |- context [?a =? ?b] =>
           first [ replace (a =? b) with true by (symmetry; apply N.eqb_eq; lia)
                 | replace (a =? b) with false by (symmetry; apply N.eqb_neq; lia) ]
         end.

Lemma hex_digit_hex_char d : d < 16 -> hex_digit (hex_char d) = Some d.
Proof.
  intros H. unfold hex_digit, hex_char.
  destruct (d <? 10) eqn:E; bools; decide_tests; cbv [andb orb negb]; f_equal; lia.
Qed.

Lemma ParseHexOctet_escape b rest :
  b < 256 -> ParseHexOctet (hex_char (b / 16) :: hex_char (b mod 16) :: rest) = Some b.
Proof.
  intros H. unfold ParseHexOctet.
  rewrite !hex_digit_hex_char by lia. f_equal. lia.
Qed.

Lemma Decode_from_skip p rest :
  Decode_from (List.length p) (p ++ rest) = Decode_from 0 rest.
Proof. induction p as [|c p IH]; [reflexivity | exact IH]. Qed.

Lemma escape_octet_length b : List.length (escape_octet b) = 3%nat.
Proof. reflexivity. Qed.

Lemma escape_octets_length octs :
  List.length (flat_map escape_octet octs) = (3 * List.length octs)%nat.
Proof. induction octs as [|b octs IH]; cbn [flat_map List.length app]; [reflexivity|].
  rewrite length_app, IH. cbn [escape_octet List.length]. lia. Qed.

Lemma continuation_octets_escape octs rest :
  Forall (fun b => b < 256) octs ->
  continuation_octets (List.length octs) (flat_map escape_octet octs ++ rest) = Some octs.
Proof.
  induction 1 as [|b octs Hb _ IH]; [reflexivity|].
  cbn [flat_map escape_octet app List.length continuation_octets].
  change (37 =? 37) with true. cbv iota.
  rewrite ParseHexOctet_escape by exact Hb.
  cbn [skipn]. rewrite IH. reflexivity.
Qed.

(** An escaped multi-octet sequence decodes to the code point of its
    octets. *)
Lemma Decode_escaped_sequence b0 octs v rest :
  b0 < 256 ->
  Forall (fun b => b < 256) octs ->
  leading_ones b0 = N.of_nat (S (List.length octs)) ->
  (1 <= List.length octs <= 3)%nat ->
  utf8_code_point (b0 :: octs) = Some v ->
  Decode_from 0 (flat_map escape_octet (b0 :: octs) ++ rest)
  = option_map (app (UTF16EncodeCodePoint v)) (Decode_from 0 rest).
Proof.
  intros Hb0 Hb Hn Hlen Hv.
  cbn [flat_map escape_octet app Decode_from].
  change (37 =? 37) with true. cbv iota.
  unfold decode_escape. rewrite ParseHexOctet_escape by exact Hb0.
  rewrite Hn. cbv zeta.
  replace (N.of_nat (S (List.length octs)) =? 0) with false by (symmetry; apply N.eqb_neq; lia).
  replace (N.of_nat (S (List.length octs)) =? 1) with false by (symmetry; apply N.eqb_neq; lia).
  replace (4 <? N.of_nat (S (List.length octs))) with false by (symmetry; apply N.ltb_ge; lia).
  cbv [orb]. cbv iota.
  rewrite Nnat.Nat2N.id. cbn [skipn].
  replace (S (List.length octs) - 1)%nat with (List.length octs) by lia.
  rewrite continuation_octets_escape by exact Hb.
  rewrite Hv. f_equal.
  replace (3 * S (List.length octs) - 1)%nat
    with (List.length (hex_char (b0 / 16) :: hex_char (b0 mod 16) :: flat_map escape_octet octs)).
  - exact (Decode_from_skip (hex_char (b0 / 16) :: hex_char (b0 mod 16) :: flat_map escape_octet octs) rest).
  - cbn [List.length]. rewrite escape_octets_length. lia.
Qed.

Lemma Decode_escaped_ascii b rest :
  b < 0x80 ->
  Decode_from 0 (escape_octet b ++ rest) = option_map (cons b) (Decode_from 0 rest).
Proof.
  intros Hb. cbn [escape_octet app Decode_from].
  change (37 =? 37) with true. cbv iota.
  unfold decode_escape. rewrite ParseHexOctet_escape by lia.
  unfold leading_ones. decide_tests. cbv iota zeta.
  change (0 =? 0) with true. reflexivity.
Qed.

(** The UTF-8 octets of a scalar value above the ASCII range. *)
Lemma utf8_octets_spec cp :
  is_scalar_value cp = true -> 0x80 <= cp ->
  exists b0 octs,
    utf8_octets cp = b0 :: octs
    /\ b0 < 256 /\ Forall (fun b => b < 256) octs
    /\ leading_ones b0 = N.of_nat (S (List.length octs))
    /\ (1 <= List.length octs <= 3)%nat
    /\ utf8_code_point (b0 :: octs) = Some cp.
Proof.
  intros Hs Hlo. unfold is_scalar_value in Hs.
  apply andb_prop in Hs. destruct Hs as [Hhi Hsur].
  apply N.ltb_lt in Hhi. apply negb_true_iff, andb_false_iff in Hsur.
  unfold utf8_octets.
  replace (cp <? 0x80) with false by (symmetry; apply N.ltb_ge; lia).
  destruct (cp <? 0x800) eqn:E2; [|destruct (cp <? 0x10000) eqn:E3]; bools;
    (do 2 eexists; split; [reflexivity|]);
    (split; [lia|]); (split; [repeat constructor; lia|]);
    (split; [unfold leading_ones; decide_tests; reflexivity|]);
    (split; [cbn [List.length]; lia|]);
    unfold utf8_code_point, is_continuation; cbv zeta.
  - decide_tests. cbv [andb]. f_equal. lia.
  - assert (Hns : (0xD800 <=? cp) && (cp <=? 0xDFFF) = false)
      by (apply andb_false_iff; exact Hsur).
    replace ((0xE0 + cp / 4096 - 0xE0) * 4096 + (0x80 + (cp / 64) mod 64 - 0x80) * 64
             + (0x80 + cp mod 64 - 0x80)) with cp by lia.
    rewrite Hns. decide_tests. cbv [andb negb]. reflexivity.
  - replace ((0xF0 + cp / 262144 - 0xF0) * 262144 + (0x80 + (cp / 4096) mod 64 - 0x80) * 4096
             + (0x80 + (cp / 64) mod 64 - 0x80) * 64 + (0x80 + cp mod 64 - 0x80)) with cp by lia.
    decide_tests. cbv [andb]. reflexivity.
Qed.

Lemma Decode_escape_code_point cp rest :
  is_scalar_value cp = true ->
  Decode_from 0 (escape_code_point cp ++ rest)
  = option_map (app (UTF16EncodeCodePoint cp)) (Decode_from 0 rest).
Proof.
  intros Hs. unfold escape_code_point.
  destruct (cp <? 0x80) eqn:E; bools.
  - unfold utf8_octets. replace (cp <? 0x80) with true by (symmetry; apply N.ltb_lt; lia).
    cbn [flat_map]. rewrite app_nil_r, Decode_escaped_ascii by exact E.
    unfold UTF16EncodeCodePoint. decide_tests. reflexivity.
  - destruct (utf8_octets_spec cp Hs E) as (b0 & octs & -> & Hb0 & Hb & Hn & Hlen & Hv).
    exact (Decode_escaped_sequence b0 octs cp rest Hb0 Hb Hn Hlen Hv).
Qed.

Lemma unescaped_not_percent c : uriUnescaped c = true -> (c =? 37) = false.
Proof.
  intros H. apply N.eqb_neq. intros ->. discriminate H.
Qed.

Lemma option_map_Some (A B : Type) (f : A -> B) (o : option A) (b : B) :
  option_map f o = Some b -> exists a, o = Some a /\ b = f a.
Proof. destruct o as [a|]; cbn; [|discriminate]. intros [= <-]. now exists a. Qed.

Lemma surrogate_pair_scalar C D :
  is_lead_surrogate C = true -> is_trail_surrogate D = true ->
  is_scalar_value (UTF16SurrogatePairToCodePoint C D) = true
  /\ UTF16EncodeCodePoint (UTF16SurrogatePairToCodePoint C D) = [C; D].
Proof.
  unfold is_lead_surrogate, is_trail_surrogate, is_scalar_value,
    UTF16SurrogatePairToCodePoint, UTF16EncodeCodePoint.
  intros HC HD. bools. decide_tests. split; [reflexivity|].
  cbv iota. f_equal; [|f_equal]; lia.
Qed.

Lemma code_unit_scalar C :
  is_code_unit C = true -> is_lead_surrogate C = false -> is_trail_surrogate C = false ->
  is_scalar_value C = true /\ UTF16EncodeCodePoint C = [C].
Proof.
  unfold is_code_unit, is_lead_surrogate, is_trail_surrogate, is_scalar_value,
    UTF16EncodeCodePoint.
  intros HC HL HT. bools.
  apply andb_false_iff in HL, HT.
  assert (cp_lo : C < 0xD800 \/ 0xDFFF < C) by (destruct HL, HT; bools; lia).
  assert (Hns : (0xD800 <=? C) && (C <=? 0xDFFF) = false).
  { apply andb_false_iff. destruct cp_lo; [left; apply N.leb_gt | right; apply N.leb_gt]; lia. }
  rewrite Hns. decide_tests. split; reflexivity.
Qed.

(** [decodeURIComponent] undoes [encodeURIComponent]. *)
Lemma Decode_Encode_bounded n :
  forall s e, (List.length s <= n)%nat ->
    is_jsstring s = true -> Encode s = Some e -> Decode_from 0 e = Some s.
Proof.
  induction n as [|n IH]; intros s e Hlen Hjs He.
  - destruct s; [|cbn in Hlen; lia]. cbn in He. now injection He as <-.
  - destruct s as [|C rest]; [cbn in He; now injection He as <-|].
    cbn [is_jsstring forallb] in Hjs. apply andb_prop in Hjs. destruct Hjs as [HC Hrest].
    cbn [List.length] in Hlen. cbn [Encode] in He.
    destruct (uriUnescaped C) eqn:EU.
    { apply option_map_Some in He. destruct He as (e' & He' & ->).
      cbn [Decode_from]. rewrite (unescaped_not_percent _ EU).
      rewrite (IH rest e'); [reflexivity | lia | exact Hrest | exact He']. }
    destruct (is_lead_surrogate C) eqn:EL.
    { destruct rest as [|D rest']; [discriminate|].
      destruct (is_trail_surrogate D) eqn:ET; [|discriminate].
      apply option_map_Some in He. destruct He as (e' & He' & ->).
      destruct (surrogate_pair_scalar _ _ EL ET) as [Hs Hu].
      rewrite (Decode_escape_code_point _ _ Hs), Hu.
      cbn [is_jsstring forallb] in Hrest. apply andb_prop in Hrest. destruct Hrest as [_ Hrest].
      cbn [List.length] in Hlen.
      rewrite (IH rest' e'); [reflexivity | lia | exact Hrest | exact He']. }
    destruct (is_trail_surrogate C) eqn:ET; [discriminate|].
    apply option_map_Some in He. destruct He as (e' & He' & ->).
    destruct (code_unit_scalar _ HC EL ET) as [Hs Hu].
    rewrite (Decode_escape_code_point _ _ Hs), Hu.
    rewrite (IH rest e'); [reflexivity | lia | exact Hrest | exact He'].
Qed.

Theorem decodeURIComponent_encodeURIComponent s e :
  is_jsstring s = true -> encodeURIComponent s = Some e -> decodeURIComponent e = Some s.
Proof. intros Hjs He. exact (Decode_Encode_bounded _ s e (le_n _) Hjs He). Qed.

Lemma utf8_octets_bounded cp :
  cp < 0x110000 -> Forall (fun b => b < 256) (utf8_octets cp).
Proof.
  intros H. unfold utf8_octets.
  destruct (cp <? 0x80) eqn:E1; [|destruct (cp <? 0x800) eqn:E2; [|destruct (cp <? 0x10000) eqn:E3]];
    bools; repeat constructor; lia.
Qed.

(** ** Underscores and the sep *)

Lemma hex_char_not_underscore d : d < 16 -> (hex_char d =? 95) = false.
Proof.
  intros H. apply N.eqb_neq. unfold hex_char. destruct (d <? 10) eqn:E; bools; lia.
Qed.

Lemma escape_code_point_no_underscore cp :
  cp < 0x110000 -> no_underscore (escape_code_point cp) = true.
Proof.
  intros H. unfold escape_code_point, no_underscore.
  pose proof (utf8_octets_bounded cp H) as Hb.
  induction Hb as [|b octs Hb _ IH]; [reflexivity|].
  cbn [flat_map escape_octet app forallb].
  rewrite !hex_char_not_underscore by lia. rewrite IH. reflexivity.
Qed.

Lemma escape_code_point_head cp : exists t, escape_code_point cp = 37 :: t.
Proof.
  unfold escape_code_point, utf8_octets.
  destruct (cp <? 0x80); [|destruct (cp <? 0x800); [|destruct (cp <? 0x10000)]];
    eexists; reflexivity.
Qed.

Lemma underscore_unescaped c : (c =? 95) = true -> uriUnescaped c = true.
Proof. intros H. apply N.eqb_eq in H. subst c. reflexivity. Qed.

Lemma startsWith_underscores_Encode k :
  forall s e, Encode s = Some e ->
    startsWith e (repeat 95 k) = startsWith s (repeat 95 k).
Proof.
  induction k as [|k IH]; intros s e He; [destruct s, e; reflexivity|].
  destruct s as [|C rest]; [cbn in He; injection He as <-; reflexivity|].
  cbn [Encode] in He. cbn [repeat].
  assert (Hesc : forall cp e' tl, uriUnescaped C = false -> e = escape_code_point cp ++ e' ->
                   startsWith e (95 :: repeat 95 k) = startsWith (C :: tl) (95 :: repeat 95 k)).
  { intros cp e' tl EU ->. destruct (escape_code_point_head cp) as [t ->].
    cbn [app startsWith].
    destruct (C =? 95) eqn:E95; [rewrite (underscore_unescaped C E95) in EU; discriminate|].
    reflexivity. }
  destruct (uriUnescaped C) eqn:EU.
  { apply option_map_Some in He. destruct He as (e' & He' & ->).
    cbn [startsWith]. now rewrite (IH rest e' He'). }
  destruct (is_lead_surrogate C).
  { destruct rest as [|D rest']; [discriminate|].
    destruct (is_trail_surrogate D); [|discriminate].
    apply option_map_Some in He. destruct He as (e' & _ & He).
    exact (Hesc _ _ _ eq_refl He). }
  destruct (is_trail_surrogate C); [discriminate|].
  apply option_map_Some in He. destruct He as (e' & _ & He).
  exact (Hesc _ _ _ eq_refl He).
Qed.

Lemma includes_cons c s search :
  includes (c :: s) search = startsWith (c :: s) search || includes s search.
Proof. reflexivity. Qed.

Lemma includes_skip p s :
  no_underscore p = true -> includes (p ++ s) sep = includes s sep.
Proof.
  induction p as [|c p IH]; intros Hp; [reflexivity|].
  cbn [no_underscore forallb] in Hp. apply andb_prop in Hp. destruct Hp as [Hc Hp].
  apply negb_true_iff in Hc.
  cbn [app]. rewrite includes_cons. cbn [startsWith].
  rewrite Hc. cbn [andb orb]. exact (IH Hp).
Qed.

Lemma code_unit_below C : is_code_unit C = true -> C < 0x110000.
Proof. unfold is_code_unit. intros H. bools. lia. Qed.

Lemma surrogate_pair_below C D :
  is_lead_surrogate C = true -> is_trail_surrogate D = true ->
  UTF16SurrogatePairToCodePoint C D < 0x110000.
Proof.
  unfold is_lead_surrogate, is_trail_surrogate, UTF16SurrogatePairToCodePoint.
  intros HC HD. bools. lia.
Qed.

(** An encoded segment contains the sep only if the segment does. *)
Lemma includes_delimiter_Encode_bounded n :
  forall s e, (List.length s <= n)%nat ->
    is_jsstring s = true -> Encode s = Some e ->
    includes s sep = false -> includes e sep = false.
Proof.
  induction n as [|n IH]; intros s e Hlen Hjs He Hinc.
  - destruct s; [|cbn in Hlen; lia]. cbn in He. now injection He as <-.
  - destruct s as [|C rest]; [cbn in He; now injection He as <-|].
    pose proof He as He0.
    cbn [is_jsstring forallb] in Hjs. apply andb_prop in Hjs. destruct Hjs as [HC Hrest].
    cbn [List.length] in Hlen. cbn [Encode] in He.
    rewrite includes_cons in Hinc. apply orb_false_elim in Hinc. destruct Hinc as [Hsw Hinc].
    destruct (uriUnescaped C) eqn:EU.
    { apply option_map_Some in He. destruct He as (e' & He' & ->).
      rewrite includes_cons.
      pose proof (startsWith_underscores_Encode 3 (C :: rest) (C :: e') He0) as Hs.
      change (repeat 95 3) with sep in Hs. rewrite Hs, Hsw. cbn [orb].
      apply (IH rest e'); [lia | exact Hrest | exact He' | exact Hinc]. }
    destruct (is_lead_surrogate C) eqn:EL.
    { destruct rest as [|D rest']; [discriminate|].
      destruct (is_trail_surrogate D) eqn:ET; [|discriminate].
      apply option_map_Some in He. destruct He as (e' & He' & ->).
      rewrite includes_skip
        by (apply escape_code_point_no_underscore, surrogate_pair_below; assumption).
      rewrite includes_cons in Hinc. apply orb_false_elim in Hinc. destruct Hinc as [_ Hinc].
      cbn [is_jsstring forallb] in Hrest. apply andb_prop in Hrest. destruct Hrest as [_ Hrest].
      cbn [List.length] in Hlen.
      apply (IH rest' e'); [lia | exact Hrest | exact He' | exact Hinc]. }
    destruct (is_trail_surrogate C) eqn:ET; [discriminate|].
    apply option_map_Some in He. destruct He as (e' & He' & ->).
    rewrite includes_skip
      by (apply escape_code_point_no_underscore, code_unit_below; assumption).
    apply (IH rest e'); [lia | exact Hrest | exact He' | exact Hinc].
Qed.

Lemma last_app_nonempty (p t : jsstring) d : t <> [] -> last (p ++ t) d = last t d.
Proof.
  intros Ht. induction p as [|c p IH]; [reflexivity|].
  cbn [app]. destruct (p ++ t) eqn:E.
  - apply app_eq_nil in E. destruct E as [_ E]. contradiction.
  - cbn [last]. exact IH.
Qed.

Lemma last_no_underscore p :
  p <> [] -> no_underscore p = true -> (last p 0 =? 95) = false.
Proof.
  induction p as [|c p IH]; intros Hne Hp; [contradiction|].
  cbn [no_underscore forallb] in Hp. apply andb_prop in Hp. destruct Hp as [Hc Hp].
  destruct p as [|c' p]; [cbn [last]; now apply negb_true_iff|].
  change (last (c :: c' :: p) 0) with (last (c' :: p) 0).
  apply IH; [discriminate | exact Hp].
Qed.

Lemma Encode_nonempty C rest e : Encode (C :: rest) = Some e -> e <> [].
Proof.
  cbn [Encode]. intros He.
  assert (Hesc : forall cp e', e = escape_code_point cp ++ e' -> e <> []).
  { intros cp e' ->. destruct (escape_code_point_head cp) as [t ->]. discriminate. }
  destruct (uriUnescaped C).
  { apply option_map_Some in He. destruct He as (e' & _ & ->). discriminate. }
  destruct (is_lead_surrogate C).
  { destruct rest as [|D rest']; [discriminate|].
    destruct (is_trail_surrogate D); [|discriminate].
    apply option_map_Some in He. destruct He as (e' & _ & He). exact (Hesc _ _ He). }
  destruct (is_trail_surrogate C); [discriminate|].
  apply option_map_Some in He. destruct He as (e' & _ & He). exact (Hesc _ _ He).
Qed.

Lemma escape_code_point_nonempty cp : escape_code_point cp <> [].
Proof. destruct (escape_code_point_head cp) as [t ->]. discriminate. Qed.

(** An encoded segment ends with an underscore only if the segment does. *)
Lemma ends_with_underscore_Encode_bounded n :
  forall s e, (List.length s <= n)%nat ->
    is_jsstring s = true -> Encode s = Some e ->
    ends_with_underscore s = false -> ends_with_underscore e = false.
Proof.
  unfold ends_with_underscore.
  induction n as [|n IH]; intros s e Hlen Hjs He Hend.
  - destruct s; [|cbn in Hlen; lia]. cbn in He. now injection He as <-.
  - destruct s as [|C rest]; [cbn in He; now injection He as <-|].
    cbn [is_jsstring forallb] in Hjs. apply andb_prop in Hjs. destruct Hjs as [HC Hrest].
    cbn [List.length] in Hlen. cbn [Encode] in He.
    (* the tail of the segment decides, unless it is empty *)
    assert (Htail : forall chunk tl e',
               chunk <> [] ->
               (tl = [] -> (last chunk 0 =? 95) = false) ->
               (List.length tl <= n)%nat -> is_jsstring tl = true -> Encode tl = Some e' ->
               (tl <> [] -> (last tl 0 =? 95) = false) ->
               (last (chunk ++ e') 0 =? 95) = false).
    { intros chunk tl e' Hne Hchunk Hl Hj He' Hlast.
      destruct tl as [|D tl'].
      - cbn in He'. injection He' as <-. rewrite app_nil_r. now apply Hchunk.
      - rewrite last_app_nonempty by exact (Encode_nonempty D tl' e' He').
        apply (IH (D :: tl') e' Hl Hj He'). apply Hlast. discriminate. }
    destruct (uriUnescaped C) eqn:EU.
    { apply option_map_Some in He. destruct He as (e' & He' & ->).
      apply (Htail [C] rest e'); [discriminate | | lia | exact Hrest | exact He' |].
      - intros ->. exact Hend.
      - intros Hne. destruct rest; [contradiction | exact Hend]. }
    destruct (is_lead_surrogate C) eqn:EL.
    { destruct rest as [|D rest']; [discriminate|].
      destruct (is_trail_surrogate D) eqn:ET; [|discriminate].
      apply option_map_Some in He. destruct He as (e' & He' & ->).
      cbn [is_jsstring forallb] in Hrest. apply andb_prop in Hrest. destruct Hrest as [_ Hrest].
      cbn [List.length] in Hlen.
      apply (Htail _ rest' e'); [apply escape_code_point_nonempty | | lia | exact Hrest | exact He' |].
      - intros _. apply last_no_underscore; [apply escape_code_point_nonempty|].
        apply escape_code_point_no_underscore, surrogate_pair_below; assumption.
      - intros Hne. destruct rest'; [contradiction | exact Hend]. }
    destruct (is_trail_surrogate C) eqn:ET; [discriminate|].
    apply option_map_Some in He. destruct He as (e' & He' & ->).
    apply (Htail _ rest e'); [apply escape_code_point_nonempty | | lia | exact Hrest | exact He' |].
    + intros _. apply last_no_underscore; [apply escape_code_point_nonempty|].
      apply escape_code_point_no_underscore, code_unit_below; assumption.
    + intros Hne. destruct rest; [contradiction | exact Hend].
Qed.

(** ** [split] undoes [join] *)

Lemma includes_false_cons c s search :
  includes (c :: s) search = false ->
  startsWith (c :: s) search = false /\ includes s search = false.
Proof. rewrite includes_cons. apply orb_false_elim. Qed.

Lemma split_from_last e :
  forall cur, includes e sep = false -> split_from sep 0 cur e = [cur ++ e].
Proof.
  induction e as [|c e IH]; intros cur Hinc; [now rewrite app_nil_r|].
  apply includes_false_cons in Hinc. destruct Hinc as [Hsw Hinc].
  cbn [split_from]. rewrite Hsw, (IH _ Hinc), <- app_assoc. reflexivity.
Qed.

Lemma no_match_across_joint c e rest :
  startsWith (c :: e) sep = false ->
  ends_with_underscore (c :: e) = false ->
  startsWith (c :: e ++ sep ++ rest) sep = false.
Proof.
  unfold ends_with_underscore. cbn [startsWith].
  destruct (c =? 95) eqn:Ec; [|reflexivity]. cbn [andb].
  destruct e as [|d e]; [cbn [last]; congruence|].
  cbn [app startsWith].
  destruct (d =? 95) eqn:Ed; [|reflexivity]. cbn [andb].
  destruct e as [|f e]; [cbn [last]; congruence|].
  cbn [app startsWith]. intros H _. exact H.
Qed.

Lemma split_from_piece e :
  forall cur rest,
    includes e sep = false -> ends_with_underscore e = false ->
    split_from sep 0 cur (e ++ sep ++ rest)
    = (cur ++ e) :: split_from sep 0 [] rest.
Proof.
  induction e as [|c e IH]; intros cur rest Hinc Hend.
  - rewrite app_nil_r. reflexivity.
  - apply includes_false_cons in Hinc. destruct Hinc as [Hsw Hinc].
    rewrite <- app_comm_cons. cbn [split_from].
    rewrite (no_match_across_joint c e rest Hsw Hend).
    rewrite IH; [now rewrite <- app_assoc | exact Hinc |].
    destruct e; [reflexivity | exact Hend].
Qed.

(** The pieces of a joined token are the joined strings, provided none
    contains the sep and none but the last ends with an underscore. *)
Lemma split_join es :
  es <> [] ->
  Forall (fun e => includes e sep = false) es ->
  Forall (fun e => ends_with_underscore e = false) (removelast es) ->
  split (join es sep) sep = es.
Proof.
  unfold split. induction es as [|e es IH]; intros Hne Hinc Hend; [contradiction|].
  inversion Hinc as [|? ? He Hinc']; subst.
  destruct es as [|e2 es].
  - cbn [join]. now rewrite split_from_last.
  - change (join (e :: e2 :: es) sep) with (e ++ sep ++ join (e2 :: es) sep).
    change (removelast (e :: e2 :: es)) with (e :: removelast (e2 :: es)) in Hend.
    inversion Hend as [|? ? He' Hend']; subst.
    rewrite split_from_piece by assumption. cbn [app].
    f_equal. apply IH; [discriminate | exact Hinc' | exact Hend'].
Qed.

(** ** The round trip of a key *)

Lemma includes_delimiter_encodeURIComponent s e :
  is_jsstring s = true -> encodeURIComponent s = Some e ->
  includes s delimiter = false -> includes e delimiter = false.
Proof. exact (includes_delimiter_Encode_bounded _ s e (le_n _)). Qed.

Lemma ends_with_underscore_encodeURIComponent s e :
  is_jsstring s = true -> encodeURIComponent s = Some e ->
  ends_with_underscore s = false -> ends_with_underscore e = false.
Proof. exact (ends_with_underscore_Encode_bounded _ s e (le_n _)). Qed.

(** [map_throwing] returns a list exactly when the callback returns on
    every element. *)
Lemma map_throwing_Forall2 (A B : Type) (f : A -> option B) (l : list A) (l' : list B) :
  map_throwing f l = Some l' <-> Forall2 (fun a b => f a = Some b) l l'.
Proof.
  revert l'. induction l as [|a l IH]; intros l'; cbn [map_throwing].
  - split; [intros [= <-]; constructor | intros H; inversion H; reflexivity].
  - split.
    + destruct (f a) as [b|] eqn:E; [|discriminate].
      intros H. apply option_map_Some in H. destruct H as (t & Ht & ->).
      constructor; [exact E | now apply IH].
    + intros H. inversion H as [|? b ? t Hab Ht]; subst.
      rewrite Hab. apply IH in Ht. now rewrite Ht.
Qed.

Lemma Forall2_removelast (A B : Type) (R : A -> B -> Prop) (l : list A) (l' : list B) :
  Forall2 R l l' -> Forall2 R (removelast l) (removelast l').
Proof.
  induction 1 as [|a b l l' Hab Hl IH]; [constructor|].
  destruct Hl as [|a' b' l l' Hab' Hl]; [constructor|].
  change (Forall2 R (a :: removelast (a' :: l)) (b :: removelast (b' :: l'))).
  constructor; [exact Hab | exact IH].
Qed.

(** A property of the segments that encoding preserves holds of the
    encoded segments. *)
Lemma Forall2_transfer (P Q : jsstring -> Prop) (l l' : list jsstring) :
  (forall s e, is_jsstring s = true -> encodeURIComponent s = Some e -> P s -> Q e) ->
  Forall2 (fun s e => is_jsstring s = true /\ encodeURIComponent s = Some e) l l' ->
  Forall P l -> Forall Q l'.
Proof.
  intros HPQ H. induction H as [|s e l l' [Hjs He] _ IH]; intros HP; [constructor|].
  inversion HP as [|? ? Hs HP']; subst.
  constructor; [exact (HPQ s e Hjs He Hs) | exact (IH HP')].
Qed.




End CodecSpec.

(* ===================================================================== *)
(** * Properties of the frame-capture pipeline *)
(* ===================================================================== *)

Module PipelineSpec.

Import JS Pipeline Examples.
Local Open Scope string_scope.
Local Open Scope list_scope.
Local Open Scope Z_scope.

(** ** The arithmetic on concrete numbers *)

Example seekTime_is_half : seekTime = number_0_5.
Proof. reflexivity. Qed.

Example quality_is_8_tenths : div (number_of_Z 8) (number_of_Z 10) = number_0_8.
Proof. reflexivity. Qed.

Example Math_round_ties :
  Math_round (div (number_of_Z 5) (number_of_Z 2)) = number_of_Z 3
  /\ Math_round (div (number_of_Z (-5)) (number_of_Z 2)) = number_of_Z (-2)
  /\ Math_round (div (number_of_Z 1) (number_of_Z 3)) = number_of_Z 0.
Proof. repeat split. Qed.

Example canvas_heights :
  canvas_height (frame_of 1920 1080) = number_of_Z 338
  /\ canvas_height (frame_of 640 480) = number_of_Z 450
  /\ canvas_height (frame_of 1080 1920) = number_of_Z 1067
  /\ canvas_height (frame_of 4000 1) = number_of_Z 1
  /\ canvas_height (frame_of 0 0) = number_of_Z 338.
Proof. repeat split. Qed.

(** ** Numbers that are not NaN *)

Lemma shr_1_nonneg mrs : 0 <= shr_m mrs -> 0 <= shr_m (shr_1 mrs).
Proof.
  destruct mrs as [m r s]. destruct m as [|p|p]; cbn [shr_m]; intros H; [cbn; lia | | lia].
  destruct p; cbn; lia.
Qed.

Lemma iter_shr_1_nonneg p :
  forall mrs, 0 <= shr_m mrs -> 0 <= shr_m (iter_pos shr_1 p mrs).
Proof.
  induction p as [p IH|p IH|]; intros mrs H; cbn [iter_pos].
  - apply IH, IH, shr_1_nonneg, H.
  - apply IH, IH, H.
  - apply shr_1_nonneg, H.
Qed.

Lemma shr_fexp_nonneg m e l :
  0 <= m -> 0 <= shr_m (fst (shr_fexp prec emax m e l)).
Proof.
  intros H. unfold shr_fexp, shr.
  assert (H0 : 0 <= shr_m (shr_record_of_loc m l)) by (destruct l as [|[]]; exact H).
  destruct (fexp prec emax (Zdigits2 m + e) - e); cbn [fst]; [exact H0 | | exact H0].
  apply iter_shr_1_nonneg, H0.
Qed.

Lemma round_nearest_even_nonneg m l : 0 <= m -> 0 <= round_nearest_even m l.
Proof.
  intros H. destruct l as [|[]]; cbn [round_nearest_even]; [lia | | lia | lia].
  destruct (Z.even m); lia.
Qed.

Lemma binary_round_aux_not_nan sx mx ex lx :
  0 <= mx -> is_nan (binary_round_aux prec emax sx mx ex lx) = false.
Proof.
  intros H. unfold binary_round_aux.
  pose proof (shr_fexp_nonneg mx ex lx H) as H1.
  destruct (shr_fexp prec emax mx ex lx) as [mrs' e']. cbn [fst] in H1.
  pose proof (shr_fexp_nonneg _ e' loc_Exact
                (round_nearest_even_nonneg _ (loc_of_shr_record mrs') H1)) as H2.
  destruct (shr_fexp prec emax _ e' loc_Exact) as [mrs'' e'']. cbn [fst] in H2.
  destruct (shr_m mrs''); [reflexivity | | lia].
  destruct (e'' <=? emax - prec); reflexivity.
Qed.

Lemma binary_normalize_not_nan m e s : is_nan (binary_normalize prec emax m e s) = false.
Proof.
  destruct m as [|p|p]; [reflexivity | |]; cbn [binary_normalize]; unfold binary_round;
    destruct (shl_align _ _ _) as [mz ez]; apply binary_round_aux_not_nan; lia.
Qed.

Lemma div_not_nan x y :
  is_finite_nonzero x = true -> is_nan y = false -> is_nan (div x y) = false.
Proof.
  destruct x as [| | |sx mx ex]; try discriminate. intros _.
  destruct y as [sy|sy| |sy my ey]; try discriminate; intros _; try reflexivity.
  unfold div, SFdiv.
  destruct (SFdiv_core_binary prec emax (Z.pos mx) ex (Z.pos my) ey) as [[mz ez] lz] eqn:E.
  apply binary_round_aux_not_nan.
  unfold SFdiv_core_binary in E.
  set (m' := match _ - _ - _ with Z.pos _ => _ | Z0 => _ | Z.neg _ => _ end) in E.
  assert (Hm' : 0 <= m').
  { subst m'. destruct (_ - _ - _); [lia | | lia]. apply Z.shiftl_nonneg. lia. }
  pose proof (Z.div_pos m' (Z.pos my) Hm' ltac:(lia)) as Hq.
  unfold Z.div in Hq. destruct (Z.div_eucl m' (Z.pos my)) as [q r].
  injection E as <- _ _. exact Hq.
Qed.

Lemma mul_not_nan x y :
  is_finite_nonzero x = true -> is_nan y = false -> is_nan (mul x y) = false.
Proof.
  destruct x as [| | |sx mx ex]; try discriminate. intros _.
  destruct y as [sy|sy| |sy my ey]; try discriminate; intros _; try reflexivity.
  apply binary_round_aux_not_nan. lia.
Qed.

Lemma Math_round_not_nan x : is_nan x = false -> is_nan (Math_round x) = false.
Proof.
  destruct x as [s|s| |s m e]; try discriminate; intros _; try reflexivity.
  cbn [Math_round]. destruct (0 <=? e); [reflexivity | apply binary_normalize_not_nan].
Qed.

Lemma Math_floor_not_nan x : is_nan x = false -> is_nan (Math_floor x) = false.
Proof.
  destruct x as [s|s| |s m e]; try discriminate; intros _; try reflexivity.
  cbn [Math_floor]. destruct (0 <=? e); [reflexivity | apply binary_normalize_not_nan].
Qed.

Lemma mul_not_nan_r x y :
  is_nan x = false -> is_finite_nonzero y = true -> is_nan (mul x y) = false.
Proof.
  destruct y as [| | |sy my ey]; try discriminate. intros Hx _.
  destruct x as [sx|sx| |sx mx ex]; try discriminate; try reflexivity.
  apply binary_round_aux_not_nan. lia.
Qed.

Lemma div_not_nan_l x y :
  is_nan x = false -> is_finite_nonzero y = true -> is_nan (div x y) = false.
Proof.
  destruct y as [| | |sy my ey]; try discriminate. intros Hx _.
  destruct x as [sx|sx| |sx mx ex]; try discriminate; try reflexivity.
  apply div_not_nan; reflexivity.
Qed.

(** ** Mantissas of 53 bits *)

Lemma digits2_pos_upper p n :
  (Z.pos p < 2 ^ Z.of_nat n) -> Z.pos (digits2_pos p) <= Z.of_nat n.
Proof.
  revert p. induction n as [|n IH]; intros p H.
  - cbn in H. lia.
  - rewrite Nat2Z.inj_succ, Z.pow_succ_r in H by lia.
    destruct p as [p|p|]; cbn [digits2_pos]; [| |lia].
    + assert (Z.pos p < 2 ^ Z.of_nat n) by lia. specialize (IH p H0). lia.
    + assert (Z.pos p < 2 ^ Z.of_nat n) by lia. specialize (IH p H0). lia.
Qed.

Lemma digits2_pos_lower p n :
  (2 ^ Z.of_nat n <= Z.pos p) -> Z.of_nat n + 1 <= Z.pos (digits2_pos p).
Proof.
  revert p. induction n as [|n IH]; intros p H.
  - destruct p; cbn [digits2_pos]; lia.
  - rewrite Nat2Z.inj_succ, Z.pow_succ_r in H by lia.
    assert (0 < 2 ^ Z.of_nat n) by (apply Z.pow_pos_nonneg; lia).
    destruct p as [p|p|]; cbn [digits2_pos]; [| |lia].
    + assert (2 ^ Z.of_nat n <= Z.pos p) by lia. specialize (IH p H1). lia.
    + assert (2 ^ Z.of_nat n <= Z.pos p) by lia. specialize (IH p H1). lia.
Qed.

(** The digits of a mantissa between [2^52] and [2^54]. *)
Lemma Zdigits2_normal m :
  2 ^ 52 <= m < 2 ^ 54 ->
  Zdigits2 m = (if m <? 2 ^ 53 then 53 else 54).
Proof.
  intros [Hlo Hhi]. destruct m as [|p|p]; [cbn in Hlo; lia | | lia].
  cbn [Zdigits2].
  pose proof (digits2_pos_lower p 52 Hlo) as H1. change (Z.of_nat 52 + 1) with 53 in H1.
  pose proof (digits2_pos_upper p 54 Hhi) as H2. change (Z.of_nat 54) with 54 in H2.
  destruct (Z.ltb_spec (Z.pos p) (2 ^ 53)) as [H|H].
  - pose proof (digits2_pos_upper p 53 H) as H3. change (Z.of_nat 53) with 53 in H3. lia.
  - pose proof (digits2_pos_lower p 53 H) as H3. change (Z.of_nat 53 + 1) with 54 in H3. lia.
Qed.

Lemma shr_record_of_loc_m m l : shr_m (shr_record_of_loc m l) = m.
Proof. destruct l as [|[]]; reflexivity. Qed.

Lemma shr_1_m mrs : 0 <= shr_m mrs -> shr_m (shr_1 mrs) = shr_m mrs / 2.
Proof.
  destruct mrs as [m r s]. cbn [shr_m]. intros H.
  destruct m as [|p|p]; [reflexivity | | lia].
  destruct p as [p|p|]; cbn [shr_1 shr_m].
  - rewrite Pos2Z.inj_xI. apply Z.div_unique with (r := 1); lia.
  - rewrite Pos2Z.inj_xO. apply Z.div_unique with (r := 0); lia.
  - reflexivity.
Qed.

(** Rounding a mantissa of 53 or 54 bits to 53 bits. *)
Lemma shr_fexp_normal m e l :
  2 ^ 52 <= m < 2 ^ 54 -> -1074 <= e ->
  2 ^ 52 <= shr_m (fst (shr_fexp prec emax m e l)) < 2 ^ 53
  /\ e <= snd (shr_fexp prec emax m e l) <= e + 1.
Proof.
  intros Hm He. unfold shr_fexp. rewrite (Zdigits2_normal m Hm).
  unfold fexp, emin, prec, emax.
  destruct (Z.ltb_spec m (2 ^ 53)) as [H|H].
  - replace (Z.max (53 + e - 53) (3 - 1024 - 53) - e) with 0 by lia.
    cbn [shr fst snd]. rewrite shr_record_of_loc_m. lia.
  - replace (Z.max (54 + e - 53) (3 - 1024 - 53) - e) with 1 by lia.
    cbn [shr iter_pos fst snd]. rewrite shr_1_m; rewrite shr_record_of_loc_m; [|lia].
    assert (2 ^ 53 = 2 * 2 ^ 52) by reflexivity.
    assert (2 ^ 54 = 2 * 2 ^ 53) by reflexivity.
    split; [split|lia].
    + apply Z.div_le_lower_bound; lia.
    + apply Z.div_lt_upper_bound; lia.
Qed.

Lemma round_nearest_even_bounds m l : m <= round_nearest_even m l <= m + 1.
Proof.
  destruct l as [|[]]; cbn [round_nearest_even]; [lia | | lia | lia].
  destruct (Z.even m); lia.
Qed.

Lemma binary_round_aux_normal s m e l :
  2 ^ 52 <= m < 2 ^ 54 -> -1074 <= e <= 969 ->
  is_finite_nonzero (binary_round_aux prec emax s m e l) = true.
Proof.
  intros Hm He. unfold binary_round_aux.
  pose proof (shr_fexp_normal m e l Hm ltac:(lia)) as [H1 H2].
  destruct (shr_fexp prec emax m e l) as [mrs' e']. cbn [fst snd] in H1, H2.
  pose proof (round_nearest_even_bounds (shr_m mrs') (loc_of_shr_record mrs')) as H3.
  assert (2 ^ 53 < 2 ^ 54) by reflexivity.
  pose proof (shr_fexp_normal (round_nearest_even (shr_m mrs') (loc_of_shr_record mrs')) e'
                loc_Exact ltac:(lia) ltac:(lia)) as [H4 H5].
  destruct (shr_fexp prec emax _ e' loc_Exact) as [mrs'' e'']. cbn [fst snd] in H4, H5.
  assert (0 < 2 ^ 52) by reflexivity.
  destruct (shr_m mrs'') as [|p|p]; [lia | | lia].
  replace (e'' <=? emax - prec) with true by (symmetry; apply Z.leb_le; unfold emax, prec; lia).
  reflexivity.
Qed.

Lemma digits2_pos_53 m : Z.pos (digits2_pos m) = 53 -> 2 ^ 52 <= Z.pos m < 2 ^ 53.
Proof.
  intros H. split.
  - destruct (Z.le_gt_cases (2 ^ 52) (Z.pos m)) as [|Hlt]; [assumption|].
    pose proof (digits2_pos_upper m 52 Hlt) as H1. change (Z.of_nat 52) with 52 in H1. lia.
  - destruct (Z.lt_ge_cases (Z.pos m) (2 ^ 53)) as [|Hge]; [assumption|].
    pose proof (digits2_pos_lower m 53 Hge) as H1. change (Z.of_nat 53 + 1) with 54 in H1. lia.
Qed.

(** 600 over a normal number of at most 53 bits is finite and not zero. *)
Lemma div_600_normal x :
  is_normal x -> is_finite_nonzero (div (number_of_Z 600) x) = true.
Proof.
  intros (m & e & -> & Hd & He).
  pose proof (digits2_pos_53 m Hd) as Hm.
  change (number_of_Z 600) with (S754_finite false 5277655813324800 (-43)).
  unfold div, SFdiv, SFdiv_core_binary. cbn [Zdigits2]. rewrite Hd.
  change (Z.pos (digits2_pos 5277655813324800)) with 53.
  unfold fexp, emin, prec, emax.
  replace (Z.min (Z.max (53 + -43 - (53 + e) - 53) (3 - 1024 - 53)) (-43 - e))
    with (-96 - e) by lia.
  replace (-43 - e - (-96 - e)) with 53 by lia.
  set (m' := Z.shiftl 5277655813324800 53).
  assert (Hm' : m' = 5277655813324800 * 2 ^ 53) by reflexivity.
  pose proof (Z.div_eucl_eq m' (Z.pos m) ltac:(lia)) as Heq.
  pose proof (Z.mod_pos_bound m' (Z.pos m) ltac:(lia)) as Hr.
  unfold Z.modulo in Hr.
  destruct (Z.div_eucl m' (Z.pos m)) as [q r].
  apply (binary_round_aux_normal (xorb false false) q (-96 - e)); [|lia].
  assert (2 ^ 52 = 4503599627370496) by reflexivity.
  assert (2 ^ 53 = 9007199254740992) by reflexivity.
  assert (2 ^ 54 = 18014398509481984) by reflexivity.
  nia.
Qed.

(** ** The Number of an unsigned long *)

Lemma digits2_pos_iter_xO k :
  forall p, digits2_pos (Pos.iter xO p k) = (digits2_pos p + k)%positive.
Proof.
  induction k as [|k IH] using Pos.peano_ind; intros p.
  - cbn [Pos.iter digits2_pos]. lia.
  - rewrite Pos.iter_succ. cbn [digits2_pos]. rewrite IH. lia.
Qed.

(** A mantissa of 53 bits with an exponent in range is left as it is. *)
Lemma binary_round_aux_canonical mz ez :
  Z.pos (digits2_pos mz) = 53 -> -1074 <= ez <= 971 ->
  binary_round_aux prec emax false (Z.pos mz) ez loc_Exact = S754_finite false mz ez.
Proof.
  intros Hd He.
  assert (Hs : shr_fexp prec emax (Z.pos mz) ez loc_Exact
               = ({| shr_m := Z.pos mz; shr_r := false; shr_s := false |}, ez)).
  { unfold shr_fexp, shr, fexp, emin, prec, emax. cbn [Zdigits2 shr_record_of_loc].
    rewrite Hd. replace (Z.max (53 + ez - 53) (3 - 1024 - 53) - ez) with 0 by lia.
    reflexivity. }
  unfold binary_round_aux. rewrite Hs.
  cbn [shr_m loc_of_shr_record round_nearest_even]. rewrite Hs. cbn [shr_m].
  replace (ez <=? emax - prec) with true by (symmetry; apply Z.leb_le; unfold emax, prec; lia).
  reflexivity.
Qed.

Lemma number_of_positive p : Z.pos p < 2 ^ 53 -> is_normal (number_of_Z (Z.pos p)).
Proof.
  intros H. unfold number_of_Z. cbn [binary_normalize]. unfold binary_round.
  pose proof (digits2_pos_upper p 53 H) as Hd. change (Z.of_nat 53) with 53 in Hd.
  set (d := digits2_pos p) in *.
  unfold shl_align, fexp, emin, prec, emax.
  replace (Z.max (Z.pos d + 0 - 53) (3 - 1024 - 53) - 0) with (Z.pos d - 53) by lia.
  replace (Z.max (Z.pos d + 0 - 53) (3 - 1024 - 53)) with (Z.pos d - 53) by lia.
  destruct (Z.pos d - 53) as [|k|k] eqn:Ek; [| lia |].
  - change (binary_round_aux 53 1024) with (binary_round_aux prec emax).
    assert (Hd53 : Z.pos (digits2_pos p) = 53) by (fold d; lia).
    rewrite (binary_round_aux_canonical p 0 Hd53) by lia.
    exists p, 0. repeat split; [exact Hd53 | lia | lia].
  - change (binary_round_aux 53 1024) with (binary_round_aux prec emax).
    assert (Hd53 : Z.pos (digits2_pos (Pos.iter xO p k)) = 53)
      by (rewrite digits2_pos_iter_xO; fold d; lia).
    rewrite (binary_round_aux_canonical _ (Z.neg k) Hd53) by lia.
    exists (Pos.iter xO p k), (Z.neg k). repeat split; [exact Hd53 | lia | lia].
Qed.

Lemma normal_finite_nonzero x : is_normal x -> is_finite_nonzero x = true.
Proof. intros (m & e & -> & _). reflexivity. Qed.

(** ** [Math.max(1, y)] is at least 1 *)

Lemma Math_max_1_ge y :
  is_nan y = false -> SFleb (number_of_Z 1) (Math_max (number_of_Z 1) y) = true.
Proof.
  intros Hy. change (number_of_Z 1) with (S754_finite false 4503599627370496 (-52)).
  destruct y as [s|s| |s m e]; try discriminate; cbn [Math_max].
  - reflexivity.
  - destruct s; reflexivity.
  - destruct (SFltb _ (S754_finite s m e)) eqn:E; [|reflexivity].
    unfold SFltb in E. unfold SFleb.
    destruct (SFcompare _ _) as [[]|]; try discriminate. reflexivity.
Qed.

(** ** The size of the canvas *)

Local Open Scope N_scope.

Lemma number_of_unsigned_long n :
  n < 2 ^ 32 -> n <> 0 -> is_normal (number_of_Z (Z.of_N n)).
Proof.
  intros Hn H0. destruct n as [|p]; [contradiction|].
  apply number_of_positive. change (Z.of_N (N.pos p)) with (Z.pos p).
  assert (Z.of_N (N.pos p) < Z.of_N (2 ^ 32))%Z by lia.
  change (Z.of_N (2 ^ 32)) with (2 ^ 32)%Z in H. change (Z.of_N (N.pos p)) with (Z.pos p) in H.
  assert (2 ^ 32 < 2 ^ 53)%Z by reflexivity. lia.
Qed.

Lemma finite_nonzero_truthy x : is_finite_nonzero x = true -> number_truthy x = true.
Proof. destruct x; try discriminate; reflexivity. Qed.

Lemma finite_nonzero_not_nan x : is_finite_nonzero x = true -> is_nan x = false.
Proof. destruct x; try discriminate; reflexivity. Qed.

Lemma vw_spec f :
  videoWidth f < 2 ^ 32 ->
  vw f = (if videoWidth f =? 0 then number_of_Z 640 else number_of_Z (Z.of_N (videoWidth f))).
Proof.
  intros Hw. unfold vw, or_number.
  destruct (N.eqb_spec (videoWidth f) 0) as [->|Hne]; [reflexivity|].
  now rewrite (finite_nonzero_truthy _
                 (normal_finite_nonzero _ (number_of_unsigned_long _ Hw Hne))).
Qed.

Lemma vh_spec f :
  videoHeight f < 2 ^ 32 ->
  vh f = (if videoHeight f =? 0
          then Math_floor (div (mul (vw f) (number_of_Z 9)) (number_of_Z 16))
          else number_of_Z (Z.of_N (videoHeight f))).
Proof.
  intros Hh. unfold vh, or_number.
  destruct (N.eqb_spec (videoHeight f) 0) as [->|Hne]; [reflexivity|].
  now rewrite (finite_nonzero_truthy _
                 (normal_finite_nonzero _ (number_of_unsigned_long _ Hh Hne))).
Qed.

Lemma vw_normal f : videoWidth f < 2 ^ 32 -> is_normal (vw f).
Proof.
  intros Hw. rewrite (vw_spec f Hw).
  destruct (N.eqb_spec (videoWidth f) 0) as [_|Hne].
  - apply (number_of_positive 640). reflexivity.
  - exact (number_of_unsigned_long _ Hw Hne).
Qed.

Lemma vh_not_nan f :
  videoWidth f < 2 ^ 32 -> videoHeight f < 2 ^ 32 -> is_nan (vh f) = false.
Proof.
  intros Hw Hh. rewrite (vh_spec f Hh).
  destruct (N.eqb_spec (videoHeight f) 0) as [_|Hne].
  - apply Math_floor_not_nan, div_not_nan_l; [|reflexivity].
    apply mul_not_nan; [|reflexivity].
    exact (normal_finite_nonzero _ (vw_normal f Hw)).
  - exact (finite_nonzero_not_nan _
             (normal_finite_nonzero _ (number_of_unsigned_long _ Hh Hne))).
Qed.

Lemma canvas_height_at_least_1 f :
  videoWidth f < 2 ^ 32 -> videoHeight f < 2 ^ 32 ->
  SFleb (number_of_Z 1) (canvas_height f) = true.
Proof.
  intros Hw Hh. unfold canvas_height.
  apply Math_max_1_ge, Math_round_not_nan, mul_not_nan_r.
  - exact (vh_not_nan f Hw Hh).
  - unfold scale, targetW. exact (div_600_normal _ (vw_normal f Hw)).
Qed.

(** ** One capture *)

Lemma effect_state el c :
  videoThumb (fst (effect el c)) = videoThumb c
  /\ isGeneratingThumb (fst (effect el c)) = isGeneratingThumb c
  /\ generate (fst (effect el c)) = generate c.
Proof. unfold effect. destruct (_ || _); [|destruct (negb el)]; repeat split. Qed.

Lemma commit_state el c new :
  videoThumb (fst (commit el c new)) = videoThumb new
  /\ isGeneratingThumb (fst (commit el c new)) = isGeneratingThumb new
  /\ generate (fst (commit el c new)) = generate new.
Proof.
  unfold commit. destruct (same_deps c new); [repeat split|].
  pose proof (effect_state el new) as H. destruct (effect el new). exact H.
Qed.

Lemma finish_spec el c thumb acts :
  videoThumb (fst (finish el c thumb acts))
  = match thumb with Some t => t | None => videoThumb c end
  /\ isGeneratingThumb (fst (finish el c thumb acts)) = false
  /\ generate (fst (finish el c thumb acts)) = None
  /\ exists after, snd (finish el c thumb acts) = acts ++ after.
Proof.
  unfold finish.
  set (new := {| videoThumb := _; isGeneratingThumb := false; observer := _; generate := None |}).
  pose proof (commit_state el c new) as (H1 & H2 & H3).
  destruct (commit el c new) as [c' acts']. cbn [fst snd] in *.
  repeat split; [exact H1 | exact H2 | exact H3 | now exists acts'].
Qed.

(** The frame of a successful capture. *)
Lemma capture_succeeds el c f dataUrl acts :
  context2d f = true -> drawImage_throws f = false -> toDataURL f = Some dataUrl ->
  videoThumb (fst (capture el c f acts)) = Some dataUrl
  /\ isGeneratingThumb (fst (capture el c f acts)) = false
  /\ generate (fst (capture el c f acts)) = None
  /\ exists after,
       snd (capture el c f acts)
       = acts ++ [DrawImage (number_of_Z 0) (number_of_Z 0) (number_of_Z 600) (canvas_height f);
                  ToDataURL (js "image/jpeg") number_0_8] ++ after.
Proof.
  intros Hc Hd Ht. unfold capture. rewrite Hc, Hd, Ht.
  destruct (finish_spec el c (Some (Some dataUrl))
              (acts ++ [DrawImage (number_of_Z 0) (number_of_Z 0) (canvas_width f) (canvas_height f);
                        ToDataURL (js "image/jpeg") number_0_8]))
    as (H1 & H2 & H3 & after & H4).
  repeat split; [exact H1 | exact H2 | exact H3 |].
  exists after. rewrite H4, <- !app_assoc. reflexivity.
Qed.

Lemma attempts_app a b : attempts (a ++ b) = (attempts a + attempts b)%nat.
Proof. unfold attempts. now rewrite filter_app, length_app. Qed.

(** ** A card without container element *)

(** The end of a failed attempt. *)
Lemma finish_failed p acts :
  finish containerRef_current (generating p) (Some None) acts = (idle, acts).
Proof.
  unfold finish, commit, generating, same_deps, effect, cleanup, containerRef_current.
  cbn. now rewrite app_nil_r.
Qed.

Lemma capture_failed p f acts :
  capture_throws f = true ->
  fst (capture containerRef_current (generating p) f acts) = idle
  /\ attempts (snd (capture containerRef_current (generating p) f acts)) = attempts acts.
Proof.
  unfold capture_throws, capture. intros H. apply andb_prop in H. destruct H as [-> H].
  destruct (drawImage_throws f).
  - rewrite finish_failed. cbn [fst snd]. split; [reflexivity|].
    rewrite attempts_app. cbn. lia.
  - destruct (toDataURL f); [discriminate|].
    rewrite finish_failed. cbn [fst snd]. split; [reflexivity|].
    rewrite attempts_app. cbn. lia.
Qed.

(** No event is listened to in the idle state. *)
Lemma idle_is_final url e : step url containerRef_current idle e = (idle, []).
Proof. destruct e as [entries|t|f|]; reflexivity. Qed.

Lemma run_idle url es :
  forall acts, run url containerRef_current idle acts es = (idle, acts).
Proof.
  induction es as [|e es IH]; intros acts; [reflexivity|].
  cbn [run]. rewrite idle_is_final, app_nil_r. apply IH.
Qed.

(** The component never leaves the state of its first render. *)
Lemma lifetime_idle url es : lifetime url es = (idle, []).
Proof. unfold lifetime, mounted_run. exact (run_idle url es []). Qed.

(** With a container element the card would be mounted observing, and a
    failed attempt would bring it back there, to start again at the next
    report of an intersection. *)
Example container_element_would_retry :
  mounted_run clip_url true [] = (observing, [Observe])
  /\ fst (mounted_run clip_url true [Intersection [true]; VideoError]) = observing
  /\ attempts (snd (mounted_run clip_url true [Intersection [true]; VideoError; Intersection [true]]))
     = 2%nat.
Proof. vm_compute. repeat split. Qed.

(** ** Failure *)



(** ** Success *)



End PipelineSpec.
